(** * Shape path engine of [src/plots/cartesian/new_shape.js]

    A shallow embedding of the path codec ([writePaths], [readPaths]), the
    shape classifier ([pointsShapeRectangle], [pointsShapeEllipse]), the
    ellipse constructor ([handleEllipse], [ellipseOver]), the shape
    synthesizer ([addNewShapes], [hasChanged]) and the vertex-delete handler
    of the outline controller ([removeVertex], [clickVertexController]).
    Of the outline controller it also embeds the snapshot
    ([recordPositions]), the two drag handlers ([moveShape],
    [moveVertexController]), the choice of the vertices that get a button
    ([addVertexControllers]) and what [redraw] commits.

    JavaScript numbers are kept behind the interface [JsNum], so that every
    function is written once, as the source has it.  Two instances are
    given: IEEE binary64 ([float], what the program runs on, executable) and
    the real numbers ([R], the arithmetic the geometry is designed in). *)

From Stdlib Require Import List String Ascii ZArith Bool Arith Lia.
From Stdlib Require Import Reals Lra.
From Stdlib Require Import Floats DecimalString.
Import ListNotations.

Set Implicit Arguments.
Local Open Scope string_scope.
Local Open Scope list_scope.

(** ** Numbers *)

(** The operations of JavaScript's number type that the file uses. *)
Class JsNum (N : Type) : Type := {
  ofZ : Z -> N;               (* an integer literal or loop counter *)
  nan : N;                    (* what [+undefined] and [undefined - 1] give *)
  nadd : N -> N -> N;
  nsub : N -> N -> N;
  nmul : N -> N -> N;
  ndiv : N -> N -> N;
  nopp : N -> N;
  Math_abs : N -> N;
  Math_sqrt : N -> N;
  Math_cos : N -> N;
  Math_sin : N -> N;
  Math_PI : N;
  lit_1e_6 : N;               (* the literal [1e-6] *)
  neqb : N -> N -> bool;      (* [===] on two numbers *)
  nleb : N -> N -> bool       (* [<=] *)
}.

Declare Scope js_scope.
Delimit Scope js_scope with js.
Infix "+" := nadd : js_scope.
Infix "-" := nsub : js_scope.
Infix "*" := nmul : js_scope.
Infix "/" := ndiv : js_scope.
Notation "- x" := (nopp x) : js_scope.
Infix "===" := neqb (at level 70, no associativity) : js_scope.
Infix "<=?" := nleb : js_scope.

(** What the file takes from its host: the conversion of a number to a
    string (string concatenation [str += number]) and the tokenizer of the
    package [parse-svg-path], which yields [[letter, ...numericArgs]]
    tuples or throws "malformed path data". *)
Class JsHost (N : Type) : Type := {
  toStr : N -> string;
  parseSvgPath : string -> option (list (string * list N))
}.

(** The small error monad of the embedding: [Throw] is an uncaught
    JavaScript exception (a [TypeError] on a property of [undefined], or the
    tokenizer's "malformed path data"). *)
Inductive res (A : Type) : Type :=
| Ret (a : A)
| Throw.
Arguments Ret {A} a.
Arguments Throw {A}.

Definition bind {A B} (m : res A) (k : A -> res B) : res B :=
  match m with
  | Ret a => k a
  | Throw => Throw
  end.

Notation "x <- m ;; k" := (bind m (fun x => k))
  (at level 61, m at next level, right associativity).

Definition ofOption {A} (o : option A) : res A :=
  match o with
  | Some a => Ret a
  | None => Throw
  end.

Fixpoint mapM {A B} (f : A -> res B) (l : list A) : res (list B) :=
  match l with
  | [] => Ret []
  | a :: l' => b <- f a ;; bs <- mapM f l' ;; Ret (b :: bs)
  end.

(** Assignment [a[i] = v] to an index inside the array. *)
Fixpoint setNth {A} (l : list A) (i : nat) (v : A) : list A :=
  match l, i with
  | [], _ => []
  | _ :: l', O => v :: l'
  | a :: l', S i' => a :: setNth l' i' v
  end.

Section Engine.

Context {N : Type} {num : JsNum N} {host : JsHost N}.
Local Open Scope js_scope.

(** [!x] on a number: zero (of either sign) and NaN are falsy. *)
Definition truthy (x : N) : bool := negb (x === ofZ 0) && (x === x).

(** A property that may be [undefined], read as a number
    ([undefined] becomes NaN in arithmetic). *)
Definition toNum (o : option N) : N :=
  match o with
  | Some v => v
  | None => nan
  end.

(** ** Data model *)

(** A command tuple [[letter, x, y, ...extra]]: element 0 is the letter,
    elements 1.. are [coords]. *)
Record Tuple : Type := mkTuple { letter : string; coords : list N }.

Definition Cell : Type := list Tuple.
Definition Polygons : Type := list Cell.

(** [t[k]] for [k >= 1]; [None] is [undefined]. *)
Definition elem (t : Tuple) (k : nat) : option N := nth_error (coords t) (k - 1).

(** [cell[i][k]] as a number, for an index [i] inside the cell. *)
Definition at_ (cell : Cell) (i k : nat) : N :=
  match nth_error cell i with
  | Some t => toNum (elem t k)
  | None => nan
  end.

Definition CIRCLE_SIDES : nat := 32.
Definition i000 : nat := 0.
Definition i045 : nat := (CIRCLE_SIDES / 8)%nat.
Definition i090 : nat := (CIRCLE_SIDES / 4)%nat.
Definition i180 : nat := (CIRCLE_SIDES / 2)%nat.
Definition i270 : nat := (CIRCLE_SIDES / 4 * 3)%nat.
Definition cos45 : N := Math_cos (Math_PI / ofZ 4).
Definition sin45 : N := Math_sin (Math_PI / ofZ 4).
Definition SQRT2 : N := Math_sqrt (ofZ 2).

(** ** Shape classifier *)

Definition almostEq (a b : N) : bool := Math_abs (a - b) <=? lit_1e_6.

Definition dist (a b : Tuple) : N :=
  let dx := toNum (elem b 1) - toNum (elem a 1) in
  let dy := toNum (elem b 2) - toNum (elem a 2) in
  Math_sqrt (dx * dx + dy * dy).

(** [cell[i]] for an index inside the cell (the callers check the length
    first). *)
Definition tupleAt (cell : Cell) (i : nat) : Tuple :=
  nth i cell (mkTuple "" []).

(** The body of the loop over [j] in [pointsShapeRectangle]: [true] when
    neither [return false] is taken. *)
Definition edgesMatch (cell : Cell) (j : nat) : bool :=
  let e01 := at_ cell 0 j - at_ cell 1 j in
  let e32 := at_ cell 3 j - at_ cell 2 j in
  if negb (almostEq e01 e32) then false
  else
    let e03 := at_ cell 0 j - at_ cell 3 j in
    let e12 := at_ cell 1 j - at_ cell 2 j in
    if negb (almostEq e03 e12) then false else true.

Definition pointsShapeRectangle (cell : Cell) : bool :=
  let len := List.length cell in
  if negb (len =? 5)%nat then false
  else if negb (forallb (edgesMatch cell) [1; 2]) then false
  else if negb (almostEq (at_ cell 0 1) (at_ cell 1 1)) &&
          negb (almostEq (at_ cell 0 1) (at_ cell 3 1)) then false
  else truthy (dist (tupleAt cell 0) (tupleAt cell 1) *
               dist (tupleAt cell 0) (tupleAt cell 3)).

(** The body of the loop over [i] in [pointsShapeEllipse]. *)
Definition diagonalsMatch (cell : Cell) (i : nat) : bool :=
  let len := CIRCLE_SIDES in
  let k := ((len * 2 - i) mod len)%nat in
  let k2 := ((len / 2 + k) mod len)%nat in
  let i2 := ((len / 2 + i) mod len)%nat in
  almostEq (dist (tupleAt cell i) (tupleAt cell i2))
           (dist (tupleAt cell k) (tupleAt cell k2)).

Definition pointsShapeEllipse (cell : Cell) : bool :=
  let len := List.length cell in
  if negb (len =? CIRCLE_SIDES + 1)%nat then false
  else forallb (diagonalsMatch cell) (seq 0 CIRCLE_SIDES).

(** ** Ellipse constructor *)

Record Pos : Type := mkPos { x0 : N; y0 : N; x1 : N; y1 : N }.

Definition ellipseOver (pos : Pos) : Pos :=
  let x0 := x0 pos in
  let y0 := y0 pos in
  let x1 := x1 pos in
  let y1 := y1 pos in
  let dx := x1 - x0 in
  let dy := y1 - y0 in
  let x0 := x0 - dx in
  let y0 := y0 - dy in
  let cx := (x0 + x1) / ofZ 2 in
  let cy := (y0 + y1) / ofZ 2 in
  let scale := SQRT2 in
  let dx := dx * scale in
  let dy := dy * scale in
  {| x0 := cx - dx; y0 := cy - dy; x1 := cx + dx; y1 := cy + dy |}.

(** [start] and [end] are [[x, y]] pairs; so are the entries of the cell
    returned. *)
Definition handleEllipse (isEllipse : bool) (start end_ : N * N) : list (N * N) :=
  if negb isEllipse then [start; end_]
  else
    let pos := ellipseOver {| x0 := fst start; y0 := snd start;
                              x1 := fst end_; y1 := snd end_ |} in
    let cx := (x1 pos + x0 pos) / ofZ 2 in
    let cy := (y1 pos + y0 pos) / ofZ 2 in
    let rx := (x1 pos - x0 pos) / ofZ 2 in
    let ry := (y1 pos - y0 pos) / ofZ 2 in
    (* if(!rx) rx = ry = ry / SQRT2 *)
    let '(rx, ry) := if negb (truthy rx) then (ry / SQRT2, ry / SQRT2) else (rx, ry) in
    (* if(!ry) ry = rx = rx / SQRT2 *)
    let '(rx, ry) := if negb (truthy ry) then (rx / SQRT2, rx / SQRT2) else (rx, ry) in
    map (fun i : nat =>
           let t := ofZ (Z.of_nat i) * ofZ 2 * Math_PI / ofZ (Z.of_nat CIRCLE_SIDES) in
           (cx + rx * Math_cos t, cy + ry * Math_sin t))
        (seq 0 CIRCLE_SIDES).

(** ** Path codec: encode *)

Definition iC : list nat := [0; 3; 4; 5; 6; 1; 2]%nat.
Definition iQS : list nat := [0; 3; 4; 1; 2]%nat.

(** [str += polygons[i][j][realK]], where [realK] is [undefined] when the
    permutation table has no entry [k]. *)
Definition elemStr (t : Tuple) (realK : option nat) : string :=
  match realK with
  | Some O => letter t
  | Some (S m) =>
      match nth_error (coords t) m with
      | Some v => toStr v
      | None => "undefined"
      end
  | None => "undefined"
  end.

Definition realK (w : string) (k : nat) : option nat :=
  if (w =? "Q") || (w =? "S") then nth_error iQS k
  else if (w =? "C") then nth_error iC k
  else Some k.

(** The text written for [polygons[i][j]]. *)
Definition writeTuple (t : Tuple) : string :=
  let w := letter t in
  if (w =? "Z") then "Z"
  else
    let nK := S (List.length (coords t)) in
    concat ""
      (map (fun k : nat =>
              (elemStr t (realK w k) ++
               (if (0 <? k)%nat && (k <? nK - 1)%nat then "," else ""))%string)
           (seq 0 nK)).

Definition writePaths (polygons : Polygons) : string :=
  let nI := List.length polygons in
  if (nI =? 0)%nat then "M0,0Z"
  else concat "" (map (fun cell : Cell => concat "" (map writeTuple cell)) polygons).

(** ** Coordinate mapper *)

Record Size : Type := mkSize { size_l : N; size_t : N; size_w : N; size_h : N }.

(** An axis object: [has_p2r] is whether its property [p2r] is set,
    [pixelToRange] is what the helper [p2r(axis, v)] of [./helpers] returns
    for it. *)
Record Axis : Type := mkAxis {
  has_p2r : bool;
  pixelToRange : N -> N;
  _offset : N;
  _id : string
}.

Definition p2r (ax : Axis) (v : N) : N := pixelToRange ax v.

(** [domain.x] and [domain.y] are pairs [[lower, upper]]. *)
Record Domain : Type := mkDomain { domain_x : N * N; domain_y : N * N }.

Record Plotinfo : Type := mkPlotinfo {
  xaxis : option Axis;
  yaxis : option Axis;
  domain : option Domain
}.

(** [isActiveShape] is [undefined] ([None]), [true] or [false]. *)
Definition isFalse (isActiveShape : option bool) : bool :=
  match isActiveShape with
  | Some false => true
  | _ => false
  end.

(** [plotinfo.xaxis && plotinfo.xaxis.p2r] *)
Definition axisWithP2r (ax : option Axis) : option Axis :=
  match ax with
  | Some a => if has_p2r a then Some a else None
  | None => None
  end.

(** Lines 491-498: the new value of [_x] inside [if(plotinfo)]. *)
Definition mapX (size : Size) (plotinfo : Plotinfo) (isActiveShape : option bool)
    (_x : N) : N :=
  match axisWithP2r (xaxis plotinfo) with
  | Some ax =>
      let _x := if isFalse isActiveShape then _x - _offset ax else _x in
      p2r ax _x
  | None =>
      let _x := if isFalse isActiveShape then _x - size_l size else _x in
      match domain plotinfo with
      | Some d => fst (domain_x d) + _x / size_w size
      | None => _x / size_w size
      end
  end.

(** Lines 500-507: the new value of [_y] inside [if(plotinfo)]. *)
Definition mapY (size : Size) (plotinfo : Plotinfo) (isActiveShape : option bool)
    (_y : N) : N :=
  match axisWithP2r (yaxis plotinfo) with
  | Some ax =>
      let _y := if isFalse isActiveShape then _y - _offset ax else _y in
      p2r ax _y
  | None =>
      let _y := if isFalse isActiveShape then _y - size_t size else _y in
      match domain plotinfo with
      | Some d => snd (domain_y d) - _y / size_h size
      | None => ofZ 1 - _y / size_h size
      end
  end.

(** ** Path codec: decode *)

(** One entry of what [parseSvgPath] returns: [[letter, ...numericArgs]]. *)
Definition RawCmd : Type := (string * list N)%type.

(** [+cmd[i][k]] for [k >= 1]. *)
Definition arg (c : RawCmd) (k : nat) : N := toNum (nth_error (snd c) (k - 1)).

(** The variables of [readPaths] that live across commands: [polys] (whose
    last cell is [polys[n]]), the current point [x], [y] and the start of
    the sub-path [initX], [initY]. *)
Record ReadState : Type := mkRead {
  polys : Polygons;
  cur_x : N;
  cur_y : N;
  initX : N;
  initY : N
}.

Definition setXY (st : ReadState) (x y : N) : ReadState :=
  mkRead (polys st) x y (initX st) (initY st).

(** The arc of case ['A']: [CIRCLE_SIDES / 2] line tuples. *)
Definition arcTuples (w : string) (cenX cenY rx ry : N) : list Tuple :=
  map (fun k : nat =>
         let t := ofZ 2 * Math_PI * ofZ (Z.of_nat k) / ofZ (Z.of_nat CIRCLE_SIDES) in
         mkTuple w [cenX + rx * Math_cos t; cenY + ry * Math_sin t])
      (seq 1 (CIRCLE_SIDES / 2)).

(** The [switch(c)] of [readPaths]: the state after it and [newPos]. *)
Definition switchCmd (st : ReadState) (cmd : RawCmd) : ReadState * list Tuple :=
  let c := fst cmd in
  let w := c in
  if (c =? "M") then
    (* newPoly(); x = ...; y = ...; newPos.push([w, x, y]); recStart() *)
    let x := arg cmd 1 in
    let y := arg cmd 2 in
    (mkRead (polys st ++ [[]]) x y x y, [mkTuple w [x; y]])
  else if (c =? "Q") || (c =? "S") then
    let x1 := arg cmd 1 in
    let y1 := arg cmd 2 in
    let x := arg cmd 3 in
    let y := arg cmd 4 in
    (setXY st x y, [mkTuple w [x; y; x1; y1]])
  else if (c =? "C") then
    let x1 := arg cmd 1 in
    let y1 := arg cmd 2 in
    let x2 := arg cmd 3 in
    let y2 := arg cmd 4 in
    let x := arg cmd 5 in
    let y := arg cmd 6 in
    (setXY st x y, [mkTuple w [x; y; x1; y1; x2; y2]])
  else if (c =? "T") || (c =? "L") then
    let x := arg cmd 1 in
    let y := arg cmd 2 in
    (setXY st x y, [mkTuple w [x; y]])
  else if (c =? "H") then
    let w := "L" in
    let x := arg cmd 1 in
    (setXY st x (cur_y st), [mkTuple w [x; cur_y st]])
  else if (c =? "V") then
    let w := "L" in
    let y := arg cmd 1 in
    (setXY st (cur_x st) y, [mkTuple w [cur_x st; y]])
  else if (c =? "A") then
    let w := "L" in
    let rx := arg cmd 1 in
    let ry := arg cmd 2 in
    let '(rx, ry) := if negb (truthy (arg cmd 4)) then (- rx, - ry) else (rx, ry) in
    let cenX := cur_x st - rx in
    let cenY := cur_y st in
    (st, arcTuples w cenX cenY rx ry)
  else if (c =? "Z") then
    if negb (cur_x st === initX st) || negb (cur_y st === initY st) then
      let x := initX st in
      let y := initY st in
      (setXY st x y, [mkTuple w [x; y]])
    else (st, [])
  else (st, []).

(** One round of the loop over [k] (lines 480-512) on the tuple
    [newPos[j]], whose coordinates are [cs]; [xy] is the current point. *)
Definition mapPair (size : Size) (plotinfo : option Plotinfo)
    (isActiveShape : option bool) (acc : (N * N) * list N) (k : nat)
    : (N * N) * list N :=
  let '(xy, cs) := acc in
  match nth_error cs k, nth_error cs (k + 1) with
  | Some _x, Some _y =>
      let xy := if (k =? 0)%nat then (_x, _y) else xy in
      let '(_x, _y) :=
        match plotinfo with
        | Some pi => (mapX size pi isActiveShape _x, mapY size pi isActiveShape _y)
        | None => (_x, _y)
        end in
      (xy, setNth (setNth cs k _x) (k + 1) _y)
  | _, _ => acc   (* continue *)
  end.

Definition mapTuple (size : Size) (plotinfo : option Plotinfo)
    (isActiveShape : option bool) (xy : N * N) (t : Tuple) : (N * N) * Tuple :=
  let '(xy, cs) :=
    fold_left (mapPair size plotinfo isActiveShape) [0; 2; 4]%nat (xy, coords t) in
  (xy, mkTuple (letter t) cs).

(** [polys[n].push(t)]: a [TypeError] when no cell was opened ([n] is -1). *)
Definition pushLast (polys : Polygons) (t : Tuple) : res Polygons :=
  match rev polys with
  | [] => Throw
  | cell :: before => Ret (rev before ++ [cell ++ [t]])
  end.

(** The loop over [j] (lines 479-516). *)
Definition pushTuple (size : Size) (plotinfo : option Plotinfo)
    (isActiveShape : option bool) (acc : res ReadState) (t : Tuple) : res ReadState :=
  st <- acc ;;
  let '(xy, t') := mapTuple size plotinfo isActiveShape (cur_x st, cur_y st) t in
  ps <- pushLast (polys st) t' ;;
  Ret (mkRead ps (fst xy) (snd xy) (initX st) (initY st)).

(** The body of the loop over the commands. *)
Definition readStep (size : Size) (plotinfo : option Plotinfo)
    (isActiveShape : option bool) (acc : res ReadState) (cmd : RawCmd) : res ReadState :=
  st <- acc ;;
  let '(st1, newPos) := switchCmd st cmd in
  fold_left (pushTuple size plotinfo isActiveShape) newPos (Ret st1).

Definition readStart : ReadState := mkRead [] (ofZ 0) (ofZ 0) (ofZ 0) (ofZ 0).

(** [readPaths] after the call of the tokenizer. *)
Definition readCommands (cmd : list RawCmd) (size : Size) (plotinfo : option Plotinfo)
    (isActiveShape : option bool) : res Polygons :=
  st <- fold_left (readStep size plotinfo isActiveShape) cmd (Ret readStart) ;;
  Ret (polys st).

(** The command [writeTuple] spells for a tuple: its letter and, unless it
    is [Z], its elements in the order they are written. *)
Definition commandOf (t : Tuple) : RawCmd :=
  let w := letter t in
  if (w =? "Z") then (w, [])
  else
    (w, flat_map (fun k : nat =>
                    match realK w k with
                    | Some (S m) =>
                        match nth_error (coords t) m with
                        | Some v => [v]
                        | None => []
                        end
                    | _ => []
                    end)
                 (seq 1 (List.length (coords t)))).

(** The commands [writePaths] spells for a polygon set with a cell. *)
Definition commandsOf (polygons : Polygons) : list RawCmd :=
  flat_map (map commandOf) polygons.

(** A command as path text: its letter, then its arguments with commas
    between them. *)
Definition spellCommand (c : RawCmd) : string :=
  (fst c ++ concat "," (map toStr (snd c)))%string.

Definition spell (cmd : list RawCmd) : string := concat "" (map spellCommand cmd).

(** The tuples [readPaths] builds: two coordinates after [M], [T], [L] and
    [Z], four after [Q] and [S], six after [C]. *)
Definition decodedTuple (t : Tuple) : Prop :=
  (exists a b : N, coords t = [a; b] /\
     (letter t = "M" \/ letter t = "T" \/ letter t = "L" \/ letter t = "Z")) \/
  (exists a b c d : N, coords t = [a; b; c; d] /\
     (letter t = "Q" \/ letter t = "S")) \/
  (exists a b c d e f : N, coords t = [a; b; c; d; e; f] /\ letter t = "C").

(** ** Shape descriptions and the chart state *)

(** A property of a shape object: [undefined], a number or a string. *)
Inductive Val : Type :=
| VUndef
| VNum (n : N)
| VStr (s : string).

(** [a === b] *)
Definition strictEq (a b : Val) : bool :=
  match a, b with
  | VUndef, VUndef => true
  | VNum m, VNum n => m === n
  | VStr s, VStr t => (s =? t)%string
  | _, _ => false
  end.

Definition valToString (v : Val) : string :=
  match v with
  | VUndef => "undefined"
  | VNum n => toStr n
  | VStr s => s
  end.

Definition valToNumber (v : Val) : N :=
  match v with
  | VNum n => n
  | _ => nan
  end.

(** [a + b], as [a.path += b.path] needs it: concatenation when either
    side is a string, addition of numbers otherwise. *)
Definition jsPlus (a b : Val) : Val :=
  match a, b with
  | VStr _, _ | _, VStr _ => VStr (valToString a ++ valToString b)%string
  | _, _ => VNum (valToNumber a + valToNumber b)
  end.

Record LineStyle : Type := mkLineStyle {
  line_color : string;
  line_width : N;
  line_dash : string
}.

(** [gd._fullLayout.newshape] *)
Record NewShapeStyle : Type := mkNewShapeStyle {
  layer : string;
  opacity : N;
  line : LineStyle;
  fillcolor : string;
  fillrule : string
}.

(** A record built by [addNewShapes]; [shape_fill] holds [fillcolor] and
    [fillrule], which are set unless the mode is open. *)
Record Shape : Type := mkShape {
  editable : bool;
  xref : string;
  yref : string;
  shape_layer : string;
  shape_opacity : N;
  shape_line : LineStyle;
  shape_fill : option (string * string);
  shape_type : string;
  shape_x0 : Val;
  shape_y0 : Val;
  shape_x1 : Val;
  shape_y1 : Val;
  shape_path : Val
}.

(** The object a shape was given as ([_input]); only its anchors are ever
    written. *)
Record InputShape : Type := mkInputShape {
  in_type : Val;
  in_x0 : Val;
  in_y0 : Val;
  in_x1 : Val;
  in_y1 : Val;
  in_path : Val
}.

(** An entry of [gd._fullLayout.shapes]. *)
Record FullShape : Type := mkFullShape {
  full_type : string;
  full_x0 : Val;
  full_y0 : Val;
  full_x1 : Val;
  full_y1 : Val;
  full_path : Val;
  _input : InputShape
}.

(** [gd._fullLayout] *)
Record Gd : Type := mkGd {
  _size : Size;
  newshape : NewShapeStyle;
  _activeShapeIndex : Z;
  shapes : list FullShape
}.

Definition readPaths (str : string) (gd : Gd) (plotinfo : option Plotinfo)
    (isActiveShape : option bool) : res Polygons :=
  cmd <- ofOption (parseSvgPath str) ;;
  readCommands cmd (_size gd) plotinfo isActiveShape.

(** ** Outline controller: deleting a vertex *)

(** The closure variables the vertex handlers share. *)
Record Outline : Type := mkOutline {
  polygons : Polygons;
  indexI : nat;
  indexJ : nat
}.

Definition removeVertex (o : Outline) : res Outline :=
  if (List.length (polygons o) =? 0)%nat then Ret o
  else
    cell <- ofOption (nth_error (polygons o) (indexI o)) ;;
    let newPolygon :=
      map snd (filter (fun jt : nat * Tuple => negb (fst jt =? indexJ o)%nat)
                      (combine (seq 0 (List.length cell)) cell)) in
    Ret (mkOutline (setNth (polygons o) (indexI o) newPolygon) (indexI o) (indexJ o)).

(** The polygons after [clickVertexController(numClicks)]; [redraw()]
    renders them and leaves them as they are. *)
Definition clickVertexController (o : Outline) (numClicks : nat) : res Outline :=
  if (numClicks =? 2)%nat then
    cell <- ofOption (nth_error (polygons o) (indexI o)) ;;
    if (4 <? List.length cell)%nat then removeVertex o else Ret o
  else Ret o.

(** ** Shape synthesizer *)

(** [openMode] of [../../components/dragelement/helpers], which this file
    imports. *)
Variable openMode : string -> bool.

(** [cell[i]] where a property of it is read next: a [TypeError] when the
    cell is shorter. *)
Definition cellAt (cell : Cell) (i : nat) : res Tuple := ofOption (nth_error cell i).

(** [cell[i][k]] as the value of a property. *)
Definition valAt (cell : Cell) (i k : nat) : res Val :=
  t <- cellAt cell i ;;
  Ret match elem t k with
      | Some v => VNum v
      | None => VUndef
      end.

(** [cell[i][k]] inside arithmetic. *)
Definition numAt (cell : Cell) (i k : nat) : res N :=
  t <- cellAt cell i ;; Ret (toNum (elem t k)).

(** Lines 748-767 of [addNewShapes]: the object handed to [ellipseOver]
    for a cell taken as an ellipse, read off the four cardinal vertices when
    [isActiveShape === false] and off the vertices at 0, 45 and 180 degrees
    otherwise. *)
Definition sampledCorners (isActiveShape : option bool) (cell : Cell) : res Pos :=
  if isFalse isActiveShape then
    c090x <- numAt cell i090 1 ;;
    c270x <- numAt cell i270 1 ;;
    c000y <- numAt cell i000 2 ;;
    c180y <- numAt cell i180 2 ;;
    c180x <- numAt cell i180 1 ;;
    c000x <- numAt cell i000 1 ;;
    c270y <- numAt cell i270 2 ;;
    c090y <- numAt cell i090 2 ;;
    let x0 := (c090x + c270x) / ofZ 2 in
    let y0 := (c000y + c180y) / ofZ 2 in
    let rx := (c270x - c090x + c180x - c000x) / ofZ 2 in
    let ry := (c270y - c090y + c180y - c000y) / ofZ 2 in
    Ret {| x0 := x0; y0 := y0; x1 := x0 + rx * cos45; y1 := y0 + ry * sin45 |}
  else
    c000x <- numAt cell i000 1 ;;
    c180x <- numAt cell i180 1 ;;
    c000y <- numAt cell i000 2 ;;
    c180y <- numAt cell i180 2 ;;
    c045x <- numAt cell i045 1 ;;
    c045y <- numAt cell i045 2 ;;
    Ret {| x0 := (c000x + c180x) / ofZ 2;
           y0 := (c000y + c180y) / ofZ 2;
           x1 := c045x; y1 := c045y |}.

(** Lines 748-772: [pos], whose fields become the anchors [x0], [y0], [x1]
    and [y1] of the circle. *)
Definition toCorners (isActiveShape : option bool) (cell : Cell) : res Pos :=
  corners <- sampledCorners isActiveShape cell ;;
  Ret (ellipseOver corners).

(** A cell holds the points [pts] when, at every index of [pts], its
    tuple has the point's coordinates as elements 1 and 2. *)
Definition holdsPoints (cell : Cell) (pts : list (N * N)) : Prop :=
  forall (i : nat) (p : N * N), nth_error pts i = Some p ->
    exists t : Tuple, nth_error cell i = Some t /\
                      elem t 1 = Some (fst p) /\ elem t 2 = Some (snd p).

(** The command tuples of an outline through the points [pts]: a move to
    the first point and a line to each of the others. *)
Definition cellOfPoints (pts : list (N * N)) : Cell :=
  match pts with
  | [] => []
  | p :: rest =>
      mkTuple "M" [fst p; snd p] :: map (fun q => mkTuple "L" [fst q; snd q]) rest
  end.

(** [path[path.length - 1] === 'Z'] for [path = shapes[id].path || '']. *)
Definition endsWithZ (path : Val) : bool :=
  match path with
  | VStr s =>
      match get (String.length s - 1) s with
      | Some c => (String c "" =? "Z")%string
      | None => false
      end
  | _ => false
  end.

(** Lines 672-695: the drag mode an active shape's type stands for. *)
Definition activeDragmode (gd : Gd) (isActiveShape : option bool)
    (dragmode : string) : res string :=
  match isActiveShape with
  | None => Ret dragmode
  | Some _ =>
      let id := _activeShapeIndex gd in
      if (id <? Z.of_nat (List.length (shapes gd)))%Z then
        s <- ofOption (if (id <? 0)%Z then None
                       else nth_error (shapes gd) (Z.to_nat id)) ;;
        let ty := full_type s in
        if (ty =? "rect") then Ret "drawrect"
        else if (ty =? "circle") then Ret "drawcircle"
        else if (ty =? "line") then Ret "drawline"
        else if (ty =? "path") then
          if endsWithZ (full_path s) then Ret "drawclosedpath"
          else Ret "drawopenpath"
        else Ret dragmode
      else Ret dragmode
  end.

(** [plotinfo.domain || !plotinfo || !(plotinfo.xaxis && plotinfo.yaxis)]
    and the two reference fields that follow from it. *)
Definition refsOf (plotinfo : Plotinfo) : string * string :=
  match domain plotinfo, xaxis plotinfo, yaxis plotinfo with
  | None, Some xa, Some ya => (_id xa, _id ya)
  | _, _, _ => ("paper", "paper")
  end.

(** The body of the loop over the cells (lines 706-778), for a cell that is
    not skipped. *)
Definition shapeOfCell (gd : Gd) (plotinfo : Plotinfo) (isActiveShape : option bool)
    (dragmode : string) (cell : Cell) : res Shape :=
  let drwStyle := newshape gd in
  let isOpenMode := openMode dragmode in
  let shape (ty : string) (x0 y0 x1 y1 path : Val) : Shape :=
    {| editable := true;
       xref := fst (refsOf plotinfo);
       yref := snd (refsOf plotinfo);
       shape_layer := layer drwStyle;
       shape_opacity := opacity drwStyle;
       shape_line := {| line_color := line_color (line drwStyle);
                        line_width := line_width (line drwStyle);
                        line_dash := line_dash (line drwStyle) |};
       shape_fill := if negb isOpenMode
                     then Some (fillcolor drwStyle, fillrule drwStyle) else None;
       shape_type := ty;
       shape_x0 := x0; shape_y0 := y0; shape_x1 := x1; shape_y1 := y1;
       shape_path := path |} in
  if (dragmode =? "drawrect") && pointsShapeRectangle cell then
    x0 <- valAt cell 0 1 ;; y0 <- valAt cell 0 2 ;;
    x1 <- valAt cell 2 1 ;; y1 <- valAt cell 2 2 ;;
    Ret (shape "rect" x0 y0 x1 y1 VUndef)
  else if (dragmode =? "drawline") then
    x0 <- valAt cell 0 1 ;; y0 <- valAt cell 0 2 ;;
    x1 <- valAt cell 1 1 ;; y1 <- valAt cell 1 2 ;;
    Ret (shape "line" x0 y0 x1 y1 VUndef)
  else if (dragmode =? "drawcircle") &&
          (isFalse isActiveShape || pointsShapeEllipse cell) then
    pos <- toCorners isActiveShape cell ;;
    Ret (shape "circle" (VNum (x0 pos)) (VNum (y0 pos)) (VNum (x1 pos)) (VNum (y1 pos))
               VUndef)
  else
    Ret (shape "path" VUndef VUndef VUndef VUndef (VStr (writePaths [cell]))).

(** The loop over the cells (lines 701-779): [newShapes]. *)
Fixpoint newShapesOf (gd : Gd) (plotinfo : Plotinfo) (isActiveShape : option bool)
    (dragmode : string) (polygons : Polygons) : res (list Shape) :=
  match polygons with
  | [] => Ret []
  | cell :: rest =>
      if (List.length cell <? 2)%nat then
        newShapesOf gd plotinfo isActiveShape dragmode rest   (* continue *)
      else
        shape <- shapeOfCell gd plotinfo isActiveShape dragmode cell ;;
        others <- newShapesOf gd plotinfo isActiveShape dragmode rest ;;
        Ret (shape :: others)
  end.

(** The keys [hasChanged] is called with. *)
Inductive Key : Type := x0_key | x1_key | y0_key | y1_key | path_key.

Definition beforeGet (beforeEdit : FullShape) (k : Key) : Val :=
  match k with
  | x0_key => full_x0 beforeEdit
  | x1_key => full_x1 beforeEdit
  | y0_key => full_y0 beforeEdit
  | y1_key => full_y1 beforeEdit
  | path_key => full_path beforeEdit
  end.

Definition afterGet (afterEdit : Shape) (k : Key) : Val :=
  match k with
  | x0_key => shape_x0 afterEdit
  | x1_key => shape_x1 afterEdit
  | y0_key => shape_y0 afterEdit
  | y1_key => shape_y1 afterEdit
  | path_key => shape_path afterEdit
  end.

Fixpoint hasChanged (beforeEdit : FullShape) (afterEdit : Shape) (keys : list Key)
    : bool :=
  match keys with
  | [] => false
  | k :: rest =>
      if negb (strictEq (beforeGet beforeEdit k) (afterGet afterEdit k)) then true
      else hasChanged beforeEdit afterEdit rest
  end.

Definition setPath (s : Shape) (path : Val) : Shape :=
  {| editable := editable s; xref := xref s; yref := yref s;
     shape_layer := shape_layer s; shape_opacity := shape_opacity s;
     shape_line := shape_line s; shape_fill := shape_fill s;
     shape_type := shape_type s;
     shape_x0 := shape_x0 s; shape_y0 := shape_y0 s;
     shape_x1 := shape_x1 s; shape_y1 := shape_y1 s;
     shape_path := path |}.

(** Lines 795-800: [afterEdit], the first new record, with the paths of the
    others appended when the active shape is a path. *)
Definition afterEditOf (beforeEdit : FullShape) (first : Shape) (others : list Shape)
    : Shape :=
  if (full_type beforeEdit =? "path") then
    setPath first (fold_left (fun p s => jsPlus p (shape_path s)) others (shape_path first))
  else first.

(** The keys the [switch] on the type [ty] hands to [hasChanged]. *)
Definition keysOf (ty : string) : list Key :=
  if (ty =? "line") || (ty =? "rect") || (ty =? "circle")
  then [x0_key; x1_key; y0_key; y1_key]
  else if (ty =? "path") then [path_key]
  else [].

(** Lines 795-821, for the entry [q] that is the active shape:
    [updatedActiveShape] and the object left in [shapes[q]]. *)
Definition reconcile (beforeEdit : FullShape) (first : Shape) (others : list Shape)
    : bool * InputShape :=
  let inp := _input beforeEdit in
  let afterEdit := afterEditOf beforeEdit first others in
  let ty := full_type beforeEdit in
  if (ty =? "line") || (ty =? "rect") || (ty =? "circle") then
    let updatedActiveShape := hasChanged beforeEdit afterEdit [x0_key; x1_key; y0_key; y1_key] in
    if updatedActiveShape then
      (updatedActiveShape,
       {| in_type := in_type inp;
          in_x0 := shape_x0 afterEdit; in_y0 := shape_y0 afterEdit;
          in_x1 := shape_x1 afterEdit; in_y1 := shape_y1 afterEdit;
          in_path := in_path inp |})
    else (updatedActiveShape, inp)
  else if (ty =? "path") then
    let updatedActiveShape := hasChanged beforeEdit afterEdit [path_key] in
    if updatedActiveShape then
      (updatedActiveShape,
       {| in_type := in_type inp;
          in_x0 := in_x0 inp; in_y0 := in_y0 inp;
          in_x1 := in_x1 inp; in_y1 := in_y1 inp;
          in_path := shape_path afterEdit |})
    else (updatedActiveShape, inp)
  else (false, inp).

(** An entry of the list [addNewShapes] returns: the input object of a
    shape that was there, or a new record. *)
Inductive Entry : Type :=
| Existing (s : InputShape)
| Added (s : Shape).

(** The loop over [q] (lines 787-823): [shapes[q]] for every [q]. *)
Definition reconciled (gd : Gd) (isActiveShape : option bool) (first : Shape)
    (others : list Shape) : list InputShape :=
  map (fun qb : nat * FullShape =>
         let '(q, beforeEdit) := qb in
         match isActiveShape with
         | Some _ =>
             if (Z.of_nat q =? _activeShapeIndex gd)%Z
             then snd (reconcile beforeEdit first others)
             else _input beforeEdit
         | None => _input beforeEdit
         end)
      (combine (seq 0 (List.length (shapes gd))) (shapes gd)).

Record DragOptions : Type := mkDragOptions {
  gd : Gd;
  plotinfo : Plotinfo;
  isActiveShape : option bool;
  dragmode : string
}.

(** [outlines] is given by the attribute [d] of its first element, [None]
    when there is none; the result [None] is [undefined]. *)
Definition addNewShapes (outlines : option string) (dragOptions : DragOptions)
    : res (option (list Entry)) :=
  match outlines with
  | None => Ret None
  | Some d =>
      let gd := gd dragOptions in
      let plotinfo := plotinfo dragOptions in
      let isActiveShape := isActiveShape dragOptions in
      dragmode <- activeDragmode gd isActiveShape (dragmode dragOptions) ;;
      polygons <- readPaths d gd (Some plotinfo) isActiveShape ;;
      newShapes <- newShapesOf gd plotinfo isActiveShape dragmode polygons ;;
      match newShapes with
      | [] => Ret None
      | first :: others =>
          let shapes := map Existing (reconciled gd isActiveShape first others) in
          match isActiveShape with
          | None => Ret (Some (shapes ++ map Added newShapes))
          | Some _ => Ret (Some shapes)
          end
      end
  end.

(** The cells [addNewShapes] makes a record of (line 704): those with two
    tuples or more. *)
Definition longCell (cell : Cell) : bool := negb (List.length cell <? 2)%nat.

(** ** What the decoder stores *)

(** The tuple [readPaths] stores for the tuple [t] it built (lines
    479-516): [t] with its coordinate pairs at elements 1-2, 3-4 and 5-6
    mapped. *)
Definition stored (size : Size) (plotinfo : option Plotinfo)
    (isActiveShape : option bool) (t : Tuple) : Tuple :=
  snd (mapTuple size plotinfo isActiveShape (ofZ 0, ofZ 0) t).

(** The reader's variables with every tuple of [polys] in its stored form;
    the current point and the start of the sub-path are kept. *)
Definition storedState (size : Size) (plotinfo : option Plotinfo)
    (isActiveShape : option bool) (st : ReadState) : ReadState :=
  mkRead (map (map (stored size plotinfo isActiveShape)) (polys st))
         (cur_x st) (cur_y st) (initX st) (initY st).

Definition storedRes (size : Size) (plotinfo : option Plotinfo)
    (isActiveShape : option bool) (acc : res ReadState) : res ReadState :=
  st <- acc ;; Ret (storedState size plotinfo isActiveShape st).

(** The letters with a [case] in the [switch] of [readPaths]. *)
Definition hasCase (c : string) : bool :=
  existsb (String.eqb c) ["M"; "Q"; "S"; "C"; "T"; "L"; "H"; "V"; "A"; "Z"].

(** The letters whose [case] fills [newPos] without opening a cell. *)
Definition draws (c : string) : bool :=
  existsb (String.eqb c) ["Q"; "S"; "C"; "T"; "L"; "H"; "V"; "A"].

(** A cell that starts with its only [M] tuple and goes on with decoded
    tuples. *)
Definition openedByM (cell : Cell) : Prop :=
  exists (a b : N) (rest : list Tuple),
    cell = mkTuple "M" [a; b] :: rest /\
    Forall (fun t => letter t <> "M" /\ decodedTuple t) rest.

(** ** Outline controller: moving *)

(** [a[i] = v] for an index inside the array or right at its end. *)
Definition putAt {A} (l : list A) (i : nat) (v : A) : list A :=
  if (i <? List.length l)%nat then setNth l i v else l ++ [v].

(** The copy [recordPositions] makes of one cell. *)
Definition copyCell (cell : Cell) : Cell :=
  map (fun t : Tuple => mkTuple (letter t) (map (fun v : N => v) (coords t))) cell.

Definition recordPositions (polygonsOut polygonsIn : Polygons) : Polygons :=
  fold_left (fun (out : Polygons) (ic : nat * Cell) => putAt out (fst ic) (copyCell (snd ic)))
            (combine (seq 0 (List.length polygonsIn)) polygonsIn) polygonsOut.

(** [mapM] with the index of each entry, counted from [i]. *)
Fixpoint mapMi {A B} (f : nat -> A -> res B) (i : nat) (l : list A) : res (list B) :=
  match l with
  | [] => Ret []
  | a :: l' => b <- f i a ;; bs <- mapMi f (S i) l' ;; Ret (b :: bs)
  end.

(** The loop over [k] of [moveShape] (lines 292-295) on the coordinates [cs]
    that are left of a tuple and those of its copy: every complete pair is
    the copy's pair moved; [copy[k]] is [undefined] past the copy's end. *)
Fixpoint movePairs (cs copy : list N) (dx dy : N) : list N :=
  match cs with
  | _ :: _ :: rest =>
      (toNum (nth_error copy 0) + dx) :: (toNum (nth_error copy 1) + dy) ::
      movePairs rest (skipn 2 copy) dx dy
  | _ => cs
  end.

(** [moveShape] on the tuple [polygons[i][j]]; [copy] is [copyPolygons[i]],
    read (with a [TypeError] when it or its entry [j] is missing) only when
    the tuple has a coordinate pair. *)
Definition moveTuple (copy : option Cell) (dx dy : N) (j : nat) (t : Tuple) : res Tuple :=
  if (List.length (coords t) <? 2)%nat then Ret t
  else
    cc <- ofOption copy ;;
    c <- ofOption (nth_error cc j) ;;
    Ret (mkTuple (letter t) (movePairs (coords t) (coords c) dx dy)).

(** The polygons after [moveShape(dx, dy)]. *)
Definition moveShape (copyPolygons polygons : Polygons) (dx dy : N) : res Polygons :=
  if (List.length polygons =? 0)%nat then Ret polygons
  else
    mapMi (fun (i : nat) (cell : Cell) =>
             mapMi (moveTuple (nth_error copyPolygons i) dx dy) 0 cell)
          0 polygons.

(** [a === b] on two elements that may be [undefined]. *)
Definition elemEq (a b : option N) : bool :=
  match a, b with
  | Some m, Some n => m === n
  | None, None => true
  | _, _ => false
  end.

(** [t[k] = v] for [k >= 1]: inside the array, or right at its end, which
    makes it one longer.  [None] when the write would leave a hole in the
    array, which [Tuple] has no value for. *)
Definition setElem (t : Tuple) (k : nat) (v : N) : option Tuple :=
  let n := List.length (coords t) in
  if (k - 1 <? n)%nat then Some (mkTuple (letter t) (setNth (coords t) (k - 1) v))
  else if (k - 1 =? n)%nat then Some (mkTuple (letter t) (coords t ++ [v]))
  else None.

(** The two writes [t[1] = x; t[2] = y]. *)
Definition setXYOf (t : Tuple) (x y : N) : option Tuple :=
  match setElem t 1 x with
  | Some t1 => setElem t1 2 y
  | None => None
  end.

(** Lines 126-134: one of the other corners, [pos], while the vertex
    [vertex] is moved to [(x, y)]. *)
Definition moveOther (vertex : Tuple) (x y : N) (pos : Tuple) : option Tuple :=
  match (if elemEq (elem pos 1) (elem vertex 1) then setElem pos 1 x else Some pos) with
  | Some pos1 =>
      if elemEq (elem pos1 2) (elem vertex 2) then setElem pos1 2 y else Some pos1
  | None => None
  end.

(** The loop over [q] (lines 122-135) from index [q] on. *)
Fixpoint moveOthers (vertex : Tuple) (indexJ : nat) (x y : N) (q : nat) (cell : Cell)
    : option Cell :=
  match cell with
  | [] => Some []
  | pos :: rest =>
      match (if (q =? indexJ)%nat then Some pos else moveOther vertex x y pos),
            moveOthers vertex indexJ x y (S q) rest with
      | Some pos', Some rest' => Some (pos' :: rest')
      | _, _ => None
      end
  end.

(** Lines 143-145: the tuple [t] with each of its elements overwritten by
    the copy's.  [None] when the copy is shorter, which would store
    [undefined] as a coordinate. *)
Definition restoreTuple (t c : Tuple) : option Tuple :=
  let n := List.length (coords t) in
  if (n <=? List.length (coords c))%nat
  then Some (mkTuple (letter c) (firstn n (coords c)))
  else None.

(** Lines 142-146 from index [j] on; reading an element of a missing entry
    of the copy is a [TypeError]. *)
Fixpoint restoreCell (copy : Cell) (j : nat) (cell : Cell) : option (res Cell) :=
  match cell with
  | [] => Some (Ret [])
  | t :: rest =>
      match nth_error copy j with
      | None => Some Throw
      | Some c =>
          match restoreTuple t c, restoreCell copy (S j) rest with
          | Some t', Some (Ret rest') => Some (Ret (t' :: rest'))
          | Some _, Some Throw => Some Throw
          | _, _ => None
          end
      end
  end.

(** The closure variables after [moveVertexController(dx, dy)], up to the
    call of [redraw()], which renders the polygons and leaves them as they
    are.  [Some Throw] is a [TypeError]; [None] is a run in which an array
    gets a hole or an [undefined] coordinate, and of which this embedding
    says nothing.  No two entries of a cell are the same array object:
    [readPaths] and [recordPositions] make a new array for every tuple. *)
Definition moveVertexController (copyPolygons : Polygons) (o : Outline) (dx dy : N)
    : option (res Outline) :=
  if (List.length (polygons o) =? 0)%nat then Some (Ret o)
  else
    match nth_error copyPolygons (indexI o) with
    | None => Some Throw
    | Some copy =>
        match nth_error copy (indexJ o) with
        | None => Some Throw
        | Some c =>
            let x0 := toNum (elem c 1) in
            let y0 := toNum (elem c 2) in
            match nth_error (polygons o) (indexI o) with
            | None => Some Throw
            | Some cell =>
                match nth_error cell (indexJ o) with
                | None => Some Throw
                | Some vertex =>
                    let put (cell' : Cell) : option (res Outline) :=
                      Some (Ret (mkOutline (setNth (polygons o) (indexI o) cell')
                                           (indexI o) (indexJ o))) in
                    if pointsShapeRectangle cell then
                      match moveOthers vertex (indexJ o) (x0 + dx) (y0 + dy) 0 cell,
                            setXYOf vertex (x0 + dx) (y0 + dy) with
                      | Some others, Some vertex' =>
                          let cell' := setNth others (indexJ o) vertex' in
                          if negb (pointsShapeRectangle cell') then
                            match restoreCell copy 0 cell' with
                            | Some (Ret cell'') => put cell''
                            | Some Throw => Some Throw
                            | None => None
                            end
                          else put cell'
                      | _, _ => None
                      end
                    else
                      match setXYOf vertex (x0 + dx) (y0 + dy) with
                      | Some vertex' => put (setNth cell (indexJ o) vertex')
                      | None => None
                      end
                end
            end
        end
    end.

(** A tuple with every complete coordinate pair moved by [(dx, dy)]: what
    [moveShape] makes of a tuple that is its own copy. *)
Definition shiftTuple (dx dy : N) (t : Tuple) : Tuple :=
  mkTuple (letter t) (movePairs (coords t) (coords t) dx dy).

(** A cell and a copy whose tuples have as many elements, entry by entry. *)
Definition sameSizes (cell copy : Cell) : Prop :=
  Forall2 (fun t c : Tuple => List.length (coords t) = List.length (coords c)) cell copy.




(** ** Outline controller: the vertex buttons *)




(** ** Redrawing *)


End Engine.

(** ** The two number instances *)

(** *** IEEE binary64 *)

Module Binary64.

Definition ofZ (z : Z) : float :=
  match z with
  | Z0 => PrimFloat.zero
  | Zpos _ => PrimFloat.of_uint63 (Uint63.of_Z z)
  | Zneg p => PrimFloat.opp (PrimFloat.of_uint63 (Uint63.of_Z (Zpos p)))
  end.

(** [Math.PI] *)
Definition PI : float := 0x1.921fb54442d18p+1%float.

(** The literal [1e-6]: the double nearest to it. *)
Definition lit_1e_6 : float := 0x1.0c6f7a0b5ed8dp-20%float.

(** The host's [Math.cos] and [Math.sin], whose precision the language
    leaves to the implementation: here the Taylor polynomials of degree 40
    and 41, evaluated in binary64 by Horner's rule.  Nothing stated about
    binary64 below evaluates them. *)
Fixpoint horner (x2 : float) (k : nat) (acc : float) : float :=
  match k with
  | O => acc
  | S k' =>
      let d := ofZ (Z.of_nat (2 * k) * (Z.of_nat (2 * k) - 1)) in
      horner x2 k' (PrimFloat.sub PrimFloat.one (PrimFloat.mul (PrimFloat.div x2 d) acc))
  end.

Definition cos (x : float) : float := horner (PrimFloat.mul x x) 20 PrimFloat.one.

Fixpoint hornerSin (x2 : float) (k : nat) (acc : float) : float :=
  match k with
  | O => acc
  | S k' =>
      let d := ofZ (Z.of_nat (2 * k) * (Z.of_nat (2 * k) + 1)) in
      hornerSin x2 k' (PrimFloat.sub PrimFloat.one (PrimFloat.mul (PrimFloat.div x2 d) acc))
  end.

Definition sin (x : float) : float :=
  PrimFloat.mul x (hornerSin (PrimFloat.mul x x) 20 PrimFloat.one).

#[global] Instance num : JsNum float :=
  Build_JsNum ofZ PrimFloat.nan
    PrimFloat.add PrimFloat.sub PrimFloat.mul PrimFloat.div PrimFloat.opp
    PrimFloat.abs PrimFloat.sqrt cos sin PI lit_1e_6
    PrimFloat.eqb PrimFloat.leb.

(** **** The host of the binary64 instance

    The conversion of a number to a string (ECMAScript's Number::toString),
    the reading of a numeral and the tokenizer are not code of the
    repository.  They are modelled here to run the codec on concrete path
    strings; no theorem over [JsHost] depends on them. *)

(** The positive rational [num / den] rounded to binary64, to nearest with
    ties to even. *)

Definition roundQ (num den : Z) : float :=
  if (num <=? 0)%Z || (den <=? 0)%Z then PrimFloat.zero
  else
    let ex := (Z.log2 num - Z.log2 den - 60)%Z in
    let '(n', d') := if (0 <=? ex)%Z then (num, den * 2 ^ ex)%Z
                     else (num * 2 ^ (- ex), den)%Z in
    let mx := (n' / d')%Z in
    let rem := (n' mod d')%Z in
    let lx := if (rem =? 0)%Z then loc_Exact
              else loc_Inexact (Z.compare (2 * rem) d') in
    SF2Prim (binary_round_aux prec emax false mx ex lx).

(** **** Number::toString *)

Definition digitsOfZ (z : Z) : string :=
  NilZero.string_of_uint (N.to_uint (Z.to_N z)).

(** [x >= 10^n] for the rational [x = num / den]. *)
Definition geqPow10 (num den n : Z) : bool :=
  if (0 <=? n)%Z then (den * 10 ^ n <=? num)%Z else (den <=? num * 10 ^ (- n))%Z.

Fixpoint adjustUp (fuel : nat) (num den n : Z) : Z :=
  match fuel with
  | O => n
  | S f => if geqPow10 num den n then adjustUp f num den (n + 1) else n
  end.

Fixpoint adjustDown (fuel : nat) (num den n : Z) : Z :=
  match fuel with
  | O => n
  | S f => if geqPow10 num den (n - 1) then n else adjustDown f num den (n - 1)
  end.

(** The integer [n] with [10^(n-1) <= num/den < 10^n]. *)
Definition decimalExponent (num den : Z) : Z :=
  let est := ((Z.log2 num - Z.log2 den) * 30103 / 100000)%Z in
  adjustDown 8 num den (adjustUp 8 num den est).

(** The rational [s * 10^e] rounded to binary64. *)
Definition roundDec (s e : Z) : float :=
  if (0 <=? e)%Z then roundQ (s * 10 ^ e) 1 else roundQ s (10 ^ (- e)).

(** The digits [s] (a [k]-digit integer) that represent [x = num/den] with
    [k] digits, if there are any: [s * 10^(n-k)] must round to [x]; of two
    candidates the closer one is taken, the even one when they are as
    close. *)
Definition digitsWith (x : float) (num den n : Z) (k : Z) : option Z :=
  let e := (n - k)%Z in
  let '(n', d') := if (0 <=? e)%Z then (num, den * 10 ^ e)%Z
                   else (num * 10 ^ (- e), den)%Z in
  let lo := (n' / d')%Z in
  let rem := (n' mod d')%Z in
  let hi := (lo + 1)%Z in
  let okLo := PrimFloat.eqb (roundDec lo e) x in
  let okHi := PrimFloat.eqb (roundDec hi e) x in
  match okLo, okHi with
  | true, true =>
      match Z.compare (2 * rem) d' with
      | Lt => Some lo
      | Gt => Some hi
      | Eq => if Z.even lo then Some lo else Some hi
      end
  | true, false => Some lo
  | false, true => Some hi
  | false, false => None
  end.

Fixpoint shortest (fuel : nat) (x : float) (num den n : Z) (k : Z) : Z * Z :=
  match fuel with
  | O => (0, k)%Z
  | S f =>
      match digitsWith x num den n k with
      | Some s => (s, k)
      | None => shortest f x num den n (k + 1)
      end
  end.

Fixpoint stripZeros (fuel : nat) (s : Z) : Z :=
  match fuel with
  | O => s
  | S f => if (s mod 10 =? 0)%Z then stripZeros f (s / 10) else s
  end.

Definition zeros (n : Z) : string := concat "" (repeat "0" (Z.to_nat n)).

(** Steps 6-10 of Number::toString: the digits [ds] of [s] and the
    exponent [n] ([x = 0.ds * 10^n]) laid out. *)
Definition layout (ds : string) (n : Z) : string :=
  let k := Z.of_nat (String.length ds) in
  if (k <=? n)%Z && (n <=? 21)%Z then ds ++ zeros (n - k)
  else if (0 <? n)%Z && (n <=? 21)%Z then
    substring 0 (Z.to_nat n) ds ++ "." ++ substring (Z.to_nat n) (Z.to_nat (k - n)) ds
  else if (-6 <? n)%Z && (n <=? 0)%Z then "0." ++ zeros (- n) ++ ds
  else
    let e := (n - 1)%Z in
    let sign := if (e <? 0)%Z then "-" else "+" in
    if (k =? 1)%Z then ds ++ "e" ++ sign ++ digitsOfZ (Z.abs e)
    else substring 0 1 ds ++ "." ++ substring 1 (Z.to_nat (k - 1)) ds
         ++ "e" ++ sign ++ digitsOfZ (Z.abs e).

(** Number::toString on a positive finite number [m * 2^e]. *)
Definition positiveToString (x : float) (m : positive) (e : Z) : string :=
  let '(num, den) := if (0 <=? e)%Z then (Zpos m * 2 ^ e, 1)%Z
                     else (Zpos m, 2 ^ (- e))%Z in
  let n0 := decimalExponent num den in
  let '(s, k) := shortest 17 x num den n0 1 in
  (* digits that rounded up to [10^k] stand for [1] with the next exponent *)
  let n := if (s =? 10 ^ k)%Z then (n0 + 1)%Z else n0 in
  layout (digitsOfZ (stripZeros 20 s)) n.

Definition toStr (x : float) : string :=
  match Prim2SF x with
  | S754_nan => "NaN"
  | S754_zero _ => "0"
  | S754_infinity s => if s then "-Infinity" else "Infinity"
  | S754_finite s m e =>
      (if s then "-" else "") ++ positiveToString (PrimFloat.abs x) m e
  end.

(** **** The tokenizer [parse-svg-path]

    A segment is a command letter (one of [astvzqmhlc], in either case)
    with the text up to the next command letter.  A number is an optional
    minus sign, digits with an optional point (at least one digit, the last
    one after the point if there is a point) and an optional exponent
    ([e], an optional sign, digits).  Then come the table of argument counts
    and the loop over the arguments of a segment. *)

Definition isDigit (c : ascii) : bool :=
  (48 <=? nat_of_ascii c)%nat && (nat_of_ascii c <=? 57)%nat.

Definition lower (c : ascii) : ascii :=
  let n := nat_of_ascii c in
  if (65 <=? n)%nat && (n <=? 90)%nat then ascii_of_nat (n + 32) else c.

Definition isCommand (c : ascii) : bool :=
  existsb (Ascii.eqb (lower c)) (list_ascii_of_string "astvzqmhlc").

Fixpoint spanDigits (l : list ascii) : list ascii * list ascii :=
  match l with
  | c :: r => if isDigit c then let '(d, r') := spanDigits r in (c :: d, r')
              else ([], l)
  | [] => ([], [])
  end.

Definition valueOfDigits (d : list ascii) : Z :=
  fold_left (fun acc c => (10 * acc + Z.of_nat (nat_of_ascii c - 48))%Z) d 0%Z.

(** [Number(text)] for a text the number pattern matched: sign, digits
    before and after the point, and the exponent. *)
Definition numberOf (neg : bool) (d1 d2 : list ascii) (exp : Z) : float :=
  let s := valueOfDigits (d1 ++ d2) in
  let e := (exp - Z.of_nat (List.length d2))%Z in
  let magnitude :=
    if (s =? 0)%Z then PrimFloat.zero
    else if (400 <? e + Z.of_nat (List.length (d1 ++ d2)))%Z then PrimFloat.infinity
    else if (e + Z.of_nat (List.length (d1 ++ d2)) <? -400)%Z then PrimFloat.zero
    else roundDec s e in
  if neg then PrimFloat.opp magnitude else magnitude.

(** The optional exponent at the head of [l]. *)
Definition matchExponent (l : list ascii) : Z * list ascii :=
  match l with
  | c :: r =>
      if Ascii.eqb (lower c) "e" then
        let '(neg, r1) :=
          match r with
          | "-"%char :: r' => (true, r')
          | "+"%char :: r' => (false, r')
          | _ => (false, r)
          end in
        let '(d, r2) := spanDigits r1 in
        match d with
        | [] => (0%Z, l)
        | _ => ((if neg then - valueOfDigits d else valueOfDigits d)%Z, r2)
        end
      else (0%Z, l)
  | [] => (0%Z, l)
  end.

(** A match of the number pattern at the head of [l]: its value and what
    follows it. *)
Definition matchNumber (l : list ascii) : option (float * list ascii) :=
  let '(neg, l1) :=
    match l with
    | "-"%char :: r => (true, r)
    | _ => (false, l)
    end in
  let '(d1, l2) := spanDigits l1 in
  let mantissa :=
    match l2 with
    | "."%char :: r =>
        let '(d2, l3) := spanDigits r in
        match d2, d1 with
        | _ :: _, _ => Some (d1, d2, l3)
        | [], _ :: _ => Some (d1, [], l2)
        | [], [] => None
        end
    | _ =>
        match d1 with
        | _ :: _ => Some (d1, [], l2)
        | [] => None
        end
    end in
  match mantissa with
  | Some (d1, d2, rest) =>
      let '(exp, rest') := matchExponent rest in
      Some (numberOf neg d1 d2 exp, rest')
  | None => None
  end.

(** [args.match(number).map(Number)]: every match, from left to right. *)
Fixpoint parseValues (fuel : nat) (l : list ascii) : list float :=
  match fuel with
  | O => []
  | S f =>
      match l with
      | [] => []
      | _ :: r =>
          match matchNumber l with
          | Some (v, rest) => v :: parseValues f rest
          | None => parseValues f r
          end
      end
  end.

(** The table [length]. *)
Definition argCount (type : ascii) : nat :=
  if Ascii.eqb type "a" then 7 else if Ascii.eqb type "c" then 6
  else if Ascii.eqb type "h" then 1 else if Ascii.eqb type "l" then 2
  else if Ascii.eqb type "m" then 2 else if Ascii.eqb type "q" then 4
  else if Ascii.eqb type "s" then 4 else if Ascii.eqb type "t" then 2
  else if Ascii.eqb type "v" then 1 else 0.

(** The [while(true)] loop over the arguments of one segment; [None] when
    it throws "malformed path data" (or, for a [z] with arguments, never
    ends). *)
Fixpoint chunkArgs (fuel : nat) (command : ascii) (n : nat) (args : list float)
    : option (list (string * list float)) :=
  match fuel with
  | O => None
  | S f =>
      if (List.length args =? n)%nat then Some [(String command "", args)]
      else if (List.length args <? n)%nat then None
      else
        match chunkArgs f command n (skipn n args) with
        | Some more => Some ((String command "", firstn n args) :: more)
        | None => None
        end
  end.

Definition parseSegment (command : ascii) (text : list ascii)
    : option (list (string * list float)) :=
  let type := lower command in
  let args := parseValues (S (List.length text)) text in
  if Ascii.eqb type "m" && (2 <? List.length args)%nat then
    (* overloaded moveTo *)
    let command' := if Ascii.eqb command "m" then "l"%char else "L"%char in
    match chunkArgs (S (List.length args)) command' (argCount "l") (skipn 2 args) with
    | Some more => Some ((String command "", firstn 2 args) :: more)
    | None => None
    end
  else chunkArgs (S (List.length args)) command (argCount type) args.

(** The text of a segment: up to the next command letter. *)
Fixpoint spanArgs (l : list ascii) : list ascii * list ascii :=
  match l with
  | c :: r => if isCommand c then ([], l)
              else let '(a, r') := spanArgs r in (c :: a, r')
  | [] => ([], [])
  end.

Fixpoint parseSegments (fuel : nat) (l : list ascii)
    : option (list (string * list float)) :=
  match fuel with
  | O => Some []
  | S f =>
      match l with
      | [] => Some []
      | c :: r =>
          if isCommand c then
            let '(text, rest) := spanArgs r in
            match parseSegment c text, parseSegments f rest with
            | Some seg, Some more => Some (seg ++ more)
            | _, _ => None
            end
          else parseSegments f r
      end
  end.

Definition parseSvgPath (path : string) : option (list (string * list float)) :=
  let l := list_ascii_of_string path in
  parseSegments (S (List.length l)) l.

#[global] Instance host : JsHost float := Build_JsHost toStr parseSvgPath.

End Binary64.

(** *** Real numbers

    The reals have no NaN: [nan] is unused on the total paths the
    real-number theorems are about, and is given the value 0. *)

Module Real.

#[global] Instance num : JsNum R := {|
  ofZ := IZR;
  nan := 0%R;
  nadd := Rplus;
  nsub := Rminus;
  nmul := Rmult;
  ndiv := Rdiv;
  nopp := Ropp;
  Math_abs := Rabs;
  Math_sqrt := R_sqrt.sqrt;
  Math_cos := Rtrigo_def.cos;
  Math_sin := Rtrigo_def.sin;
  Math_PI := Rtrigo1.PI;
  lit_1e_6 := (1 / 1000000)%R;
  neqb := fun a b => if Req_dec_T a b then true else false;
  nleb := fun a b => if Rle_dec a b then true else false
|}.

End Real.

(** ** Sample data (binary64) *)

Module Samples.

Local Open Scope float_scope.
#[local] Set Warnings "-inexact-float".

Definition style : NewShapeStyle :=
  mkNewShapeStyle "above" 1 (mkLineStyle "#444" 4 "solid") "rgba(0,0,0,0)" "evenodd".

(** A chart of 2 by 2 pixels without margins and without shapes. *)
Definition chart : Gd := mkGd (mkSize 0 0 2 2) style (-1) [].

(** A plot of 400 by 200 pixels behind margins of 80 (left) and 100 (top). *)
Definition plot : Size := mkSize 80 100 400 200.

(** A paper-referenced context: no axes, no domain. *)
Definition paper : @Plotinfo float := mkPlotinfo None None None.

Definition triangle : Polygons :=
  [[mkTuple "M" [0; 0]; mkTuple "L" [10; 0]; mkTuple "L" [10; 10.5];
    mkTuple "Z" [0; 0]]].

Definition segment : Polygons := [[mkTuple "M" [2; 2]; mkTuple "L" [4; 4]]].

(** A closed path whose second point is the smallest positive number away
    from the first. *)
Definition sliver : Polygons :=
  [[mkTuple "M" [0; 0]; mkTuple "L" [0x0.0000000000001p-1022; 0]; mkTuple "Z" [0; 0]]].

(** No cell, and one cell without tuples. *)
Definition noCell : @Polygons float := [].
Definition emptyCell : @Polygons float := [[]].

(** The square of side 10 and a quadrilateral whose corners have four
    different x-coordinates, [0], [2^-21], [10 + 2^-22] and [10]. *)
Definition square : Cell :=
  [mkTuple "M" [0; 0]; mkTuple "L" [0; 10]; mkTuple "L" [10; 10];
   mkTuple "L" [10; 0]; mkTuple "Z" [0; 0]].


(** That square turned by 10 degrees (to 7 digits). *)
Definition turned : Cell :=
  [mkTuple "M" [0; 0]; mkTuple "L" [-1.7364818; 9.8480775];
   mkTuple "L" [8.1115957; 11.5845593]; mkTuple "L" [9.8480775; 1.7364818];
   mkTuple "Z" [0; 0]].

(** [openMode] as the drag helpers define it. *)
Definition openMode (dragmode : string) : bool :=
  ((dragmode =? "drawline") || (dragmode =? "drawopenpath"))%string.

(** Linear axes over a plot of 400 by 200 pixels at offset 0: x ranges over
    [0, 10] from left to right, y over [0, 10] from bottom to top. *)
Definition xLinear : Axis := mkAxis true (fun v => v * 10 / 400) 0 "x".
Definition yLinear : Axis := mkAxis true (fun v => 10 - v * 10 / 200) 0 "y".
Definition cartesian : Plotinfo := mkPlotinfo (Some xLinear) (Some yLinear) None.
Definition axesChart : Gd := mkGd (mkSize 0 0 400 200) style (-1) [].

(** A drag in rectangle mode from pixel (50, 50) to pixel (150, 120). *)
Definition rectDrag : DragOptions := mkDragOptions axesChart cartesian None "drawrect".

(** A rectangle of the chart as it was given and as the layout holds it,
    and the record an edit that moved [x0] by [2^-40] produces. *)
Definition givenRect : InputShape :=
  mkInputShape (VStr "rect") (VNum 1) (VNum 2) (VNum 3) (VNum 4) VUndef.
Definition fullRect : FullShape :=
  mkFullShape "rect" (VNum 1) (VNum 2) (VNum 3) (VNum 4) VUndef givenRect.
Definition sameRect : Shape :=
  mkShape true "x" "y" "above" 1 (mkLineStyle "#444" 4 "solid") None "rect"
          (VNum 1) (VNum 2) (VNum 3) (VNum 4) VUndef.
Definition nudgedRect : Shape :=
  mkShape true "x" "y" "above" 1 (mkLineStyle "#444" 4 "solid") None "rect"
          (VNum 0x1.0000000001p+0) (VNum 2) (VNum 3) (VNum 4) VUndef.

Definition pentagon : Cell :=
  [mkTuple "M" [0; 0]; mkTuple "L" [4; 0]; mkTuple "L" [5; 3];
   mkTuple "L" [2; 5]; mkTuple "L" [-1; 3]].

(** A line of the chart, and a chart that holds the rectangle, which is
    the active shape, and the line; an edit of the active shape. *)
Definition givenLine : InputShape :=
  mkInputShape (VStr "line") (VNum 0) (VNum 0) (VNum 5) (VNum 5) VUndef.
Definition fullLine : FullShape :=
  mkFullShape "line" (VNum 0) (VNum 0) (VNum 5) (VNum 5) VUndef givenLine.
Definition editChart : Gd := mkGd (mkSize 0 0 400 200) style 0 [fullRect; fullLine].
Definition rectEdit : DragOptions :=
  mkDragOptions editChart cartesian (Some false) "select".

(** A path of the chart, and the record made of a cell on paper in a
    closed mode. *)
Definition givenPath : @InputShape float :=
  mkInputShape (VStr "path") VUndef VUndef VUndef VUndef (VStr "M0,0L1,1Z").
Definition fullPath : FullShape :=
  mkFullShape "path" VUndef VUndef VUndef VUndef (VStr "M0,0L1,1Z") givenPath.
Definition pathRecord (path : string) : Shape :=
  mkShape true "paper" "paper" "above" 1 (mkLineStyle "#444" 4 "solid")
          (Some ("rgba(0,0,0,0)", "evenodd")) "path" VUndef VUndef VUndef VUndef
          (VStr path).

End Samples.

(** Sample data over the reals. *)
Module RealSamples.

Local Open Scope R_scope.


Definition style : NewShapeStyle :=
  mkNewShapeStyle "above" 1 (mkLineStyle "#444" 4 "solid") "rgba(0,0,0,0)" "evenodd".

(** A chart of 2 by 2 pixels without margins and without shapes, and a
    paper-referenced context. *)
Definition layout : Gd := mkGd (mkSize 0 0 2 2) style (-1) [].
Definition paper : @Plotinfo R := mkPlotinfo None None None.

(** A rectangle of the chart as it was given and as the layout holds it,
    and a chart in which it is the active shape. *)
Definition givenRect : InputShape :=
  mkInputShape (VStr "rect") (VNum 1) (VNum 2) (VNum 3) (VNum 4) VUndef.
Definition fullRect : FullShape :=
  mkFullShape "rect" (VNum 1) (VNum 2) (VNum 3) (VNum 4) VUndef givenRect.

End RealSamples.

(* ================================================================== *)
(** * Properties *)

(** ** Helper facts on lists *)


Lemma removeAt_filter {A} (j : nat) (l : list A) (a : nat) :
  map snd (filter (fun jt : nat * A => negb (fst jt =? a + j)%nat)
                  (combine (seq a (List.length l)) l))
  = firstn j l ++ skipn (S j) l.
Proof.
  revert j a. induction l as [|x l IH]; intros j a.
  - destruct j; reflexivity.
  - destruct j as [|j]; cbn [List.length seq combine filter fst].
    + rewrite Nat.add_0_r, Nat.eqb_refl. cbn [negb firstn skipn app].
      clear IH. 
      assert (H : forall (m : list A) b, a < b ->
                 map snd (filter (fun jt : nat * A => negb (fst jt =? a)%nat)
                                 (combine (seq b (List.length m)) m)) = m).
      { induction m as [|y m IHm]; intros b Hb; [reflexivity|].
        cbn [List.length seq combine filter fst].
        destruct (Nat.eqb_spec b a) as [->|_]; [lia|].
        cbn [negb map snd]. f_equal. apply IHm. lia. }
      apply H. lia.
    + destruct (Nat.eqb_spec a (a + S j)) as [E|_]; [lia|].
      cbn [negb map snd firstn skipn app]. f_equal.
      replace (a + S j) with (S a + j) by lia. apply IH.
Qed.

Lemma setNth_length {A} (l : list A) (i : nat) (v : A) :
  List.length (setNth l i v) = List.length l.
Proof.
  revert i; induction l as [|a l IH]; intros [|i]; cbn; auto.
Qed.

Lemma setNth_same {A} (l : list A) (i : nat) (v : A) :
  i < List.length l -> nth_error (setNth l i v) i = Some v.
Proof.
  revert i; induction l as [|a l IH]; intros [|i] H; cbn in *; try lia; auto.
  apply IH; lia.
Qed.

Lemma setNth_other {A} (l : list A) (i j : nat) (v : A) :
  i <> j -> nth_error (setNth l i v) j = nth_error l j.
Proof.
  revert i j; induction l as [|a l IH]; intros [|i] [|j] H; cbn; auto; try lia.
Qed.

Section EngineFacts.

Context {N : Type} {num : JsNum N} {host : JsHost N}.

(** ** Shape classifier *)




(** ** Path codec: encode *)

(** C9. [writePaths] of the empty polygon set is the placeholder path
    ['M0,0Z'], which is not the empty string; nothing is thrown (the
    function is total). *)
Theorem writePaths_empty :
  writePaths (@nil Cell) = "M0,0Z" /\ writePaths (@nil Cell) <> "".
Proof.
  split; [reflexivity | discriminate].
Qed.

(** ** Coordinate mapper *)


(** ** Path codec: decode *)


(** ** Outline controller *)

(** C8. A double click on a vertex controller leaves the polygons as they
    are when the cell has at most 4 entries; when it has more, the cell is
    replaced by the cell without entry [indexJ] (the entries before and
    after it in their order), every other cell stays, and a 5-entry cell
    comes out with 4 entries. *)
Theorem clickVertexController_delete (o : @Outline N) (cell : @Cell N) :
  nth_error (polygons o) (indexI o) = Some cell ->
  indexJ o < List.length cell ->
  let cell' := firstn (indexJ o) cell ++ skipn (S (indexJ o)) cell in
  let after := setNth (polygons o) (indexI o) cell' in
  (List.length cell <= 4 -> clickVertexController o 2 = Ret o) /\
  (4 < List.length cell ->
     clickVertexController o 2 = Ret (mkOutline after (indexI o) (indexJ o)) /\
     nth_error after (indexI o) = Some cell' /\
     (forall i : nat, i <> indexI o -> nth_error after i = nth_error (polygons o) i) /\
     List.length after = List.length (polygons o) /\
     S (List.length cell') = List.length cell) /\
  (List.length cell = 5 -> List.length cell' = 4).
Proof.
  intros Hcell HJ cell' after.
  assert (HI : indexI o < List.length (polygons o)).
  { apply nth_error_Some. rewrite Hcell. discriminate. }
  assert (Hlen : S (List.length cell') = List.length cell).
  { unfold cell'. rewrite length_app, length_firstn, length_skipn. lia. }
  split; [|split].
  - intros Hle. unfold clickVertexController. cbn [Nat.eqb].
    rewrite Hcell. cbn [ofOption bind].
    destruct (Nat.ltb_spec 4 (List.length cell)); [lia | reflexivity].
  - intros Hgt. split; [|split; [|split; [|split]]].
    + unfold clickVertexController. cbn [Nat.eqb].
      rewrite Hcell. cbn [ofOption bind].
      destruct (Nat.ltb_spec 4 (List.length cell)); [|lia].
      unfold removeVertex.
      destruct (Nat.eqb_spec (List.length (polygons o)) 0) as [E|_]; [lia|].
      rewrite Hcell. cbn [ofOption bind].
      pose proof (removeAt_filter (indexJ o) cell 0) as R.
      cbn [Nat.add] in R. rewrite R. reflexivity.
    + apply setNth_same. exact HI.
    + intros i Hi. apply setNth_other. auto.
    + apply setNth_length.
    + exact Hlen.
  - intros H5. lia.
Qed.

(** ** Shape synthesizer *)

Variable openMode : string -> bool.

(** C10. The records [addNewShapes] builds are those of the cells with at
    least 2 tuples, in their order: a cell with no tuple or with one tuple
    gets no record, in any drawing mode, and the cells around it are
    processed as if it were not there. *)
Theorem newShapesOf_skips_short (gd : Gd) (plotinfo : Plotinfo)
    (isActiveShape : option bool) (dragmode : string) (polygons : Polygons) :
  newShapesOf openMode gd plotinfo isActiveShape dragmode polygons
  = mapM (shapeOfCell openMode gd plotinfo isActiveShape dragmode)
         (filter (fun cell : Cell => negb (List.length cell <? 2)%nat) polygons)
  /\
  (forall (before after : Polygons) (t : Tuple),
     newShapesOf openMode gd plotinfo isActiveShape dragmode (before ++ [] :: after)
     = newShapesOf openMode gd plotinfo isActiveShape dragmode (before ++ after) /\
     newShapesOf openMode gd plotinfo isActiveShape dragmode (before ++ [t] :: after)
     = newShapesOf openMode gd plotinfo isActiveShape dragmode (before ++ after)).
Proof.
  assert (H : forall ps,
    newShapesOf openMode gd plotinfo isActiveShape dragmode ps
    = mapM (shapeOfCell openMode gd plotinfo isActiveShape dragmode)
           (filter (fun cell : Cell => negb (List.length cell <? 2)%nat) ps)).
  { induction ps as [|cell rest IH]; [reflexivity|].
    cbn [newShapesOf filter].
    destruct (List.length cell <? 2)%nat; cbn [negb mapM]; rewrite IH; reflexivity. }
  split; [apply H|].
  intros before after t. rewrite !H, !filter_app. split; reflexivity.
Qed.

(** [hasChanged] answers [false] exactly when [===] holds on every key. *)
Lemma hasChanged_false (beforeEdit : @FullShape N) (afterEdit : Shape) (keys : list Key) :
  hasChanged beforeEdit afterEdit keys = false <->
  Forall (fun k => strictEq (beforeGet beforeEdit k) (afterGet afterEdit k) = true) keys.
Proof.
  induction keys as [|k keys IH]; cbn [hasChanged].
  - split; [constructor | reflexivity].
  - destruct (strictEq (beforeGet beforeEdit k) (afterGet afterEdit k)) eqn:E;
      cbn [negb].
    + rewrite IH. split; [intros H; constructor; assumption|].
      intros H; inversion H; assumption.
    + split; [discriminate|]. intros H; inversion H; congruence.
Qed.

(** C4. For the active shape, [updatedActiveShape] is [hasChanged] on the
    keys of its type ([x0], [x1], [y0], [y1] for a line, rect or circle,
    [path] for a path), [hasChanged] is [false] exactly when every such key
    is [===] in the record before and the record after, and then the entry
    is the input object as it was; an entry that is not the active one is
    always the input object as it was. *)
Theorem reconcile_exact (beforeEdit : @FullShape N) (first : Shape) (others : list Shape) :
  let afterEdit := afterEditOf beforeEdit first others in
  let keys := keysOf (full_type beforeEdit) in
  let updatedActiveShape := fst (reconcile beforeEdit first others) in
  let entry := snd (reconcile beforeEdit first others) in
  updatedActiveShape = hasChanged beforeEdit afterEdit keys /\
  (updatedActiveShape = false <->
   Forall (fun k => strictEq (beforeGet beforeEdit k) (afterGet afterEdit k) = true) keys) /\
  (updatedActiveShape = false -> entry = _input beforeEdit) /\
  (entry <> _input beforeEdit -> updatedActiveShape = true) /\
  (updatedActiveShape = true ->
   entry = match keys with
           | [path_key] =>
               {| in_type := in_type (_input beforeEdit);
                  in_x0 := in_x0 (_input beforeEdit); in_y0 := in_y0 (_input beforeEdit);
                  in_x1 := in_x1 (_input beforeEdit); in_y1 := in_y1 (_input beforeEdit);
                  in_path := shape_path afterEdit |}
           | _ =>
               {| in_type := in_type (_input beforeEdit);
                  in_x0 := shape_x0 afterEdit; in_y0 := shape_y0 afterEdit;
                  in_x1 := shape_x1 afterEdit; in_y1 := shape_y1 afterEdit;
                  in_path := in_path (_input beforeEdit) |}
           end) /\
  (forall (gd : Gd) (isActiveShape : option bool) (q : nat) (s : FullShape),
     nth_error (shapes gd) q = Some s ->
     nth_error (reconciled gd isActiveShape first others) q
     = Some (if match isActiveShape with Some _ => true | None => false end &&
                (Z.of_nat q =? _activeShapeIndex gd)%Z
             then snd (reconcile s first others)
             else _input s)).
Proof.
  cbv zeta.
  assert (H3 : fst (reconcile beforeEdit first others) = false ->
               snd (reconcile beforeEdit first others) = _input beforeEdit).
  { unfold reconcile.
    destruct ((full_type beforeEdit =? "line") || (full_type beforeEdit =? "rect")
              || (full_type beforeEdit =? "circle"))%string.
    - destruct (hasChanged _ _ _); [simpl; intros Hd; discriminate Hd | reflexivity].
    - destruct (full_type beforeEdit =? "path")%string; [|reflexivity].
      destruct (hasChanged _ _ _); [simpl; intros Hd; discriminate Hd | reflexivity]. }
  assert (H1 : fst (reconcile beforeEdit first others)
               = hasChanged beforeEdit (afterEditOf beforeEdit first others)
                   (keysOf (full_type beforeEdit))).
  { unfold reconcile, keysOf.
    destruct ((full_type beforeEdit =? "line") || (full_type beforeEdit =? "rect")
              || (full_type beforeEdit =? "circle"))%string.
    - destruct (hasChanged _ _ _); reflexivity.
    - destruct (full_type beforeEdit =? "path")%string; [|reflexivity].
      destruct (hasChanged _ _ _); reflexivity. }
  split; [exact H1|]. split; [rewrite H1; apply hasChanged_false|].
  split; [exact H3|]. split; [|split].
  - intros Hne. destruct (fst (reconcile beforeEdit first others)); [reflexivity|].
    exfalso. apply Hne, H3. reflexivity.
  - clear H1 H3. unfold reconcile, keysOf.
    destruct ((full_type beforeEdit =? "line") || (full_type beforeEdit =? "rect")
              || (full_type beforeEdit =? "circle"))%string.
    + destruct (hasChanged _ _ _); [reflexivity | simpl; intros Hd; discriminate Hd].
    + destruct (full_type beforeEdit =? "path")%string;
        [|simpl; intros Hd; discriminate Hd].
      destruct (hasChanged _ _ _); [reflexivity | simpl; intros Hd; discriminate Hd].
  - intros gd isActiveShape q s Hq. unfold reconciled.
    assert (Hc : nth_error (combine (seq 0 (List.length (shapes gd))) (shapes gd)) q
                 = Some (q, s)).
    { assert (G : forall (l : list (@FullShape N)) a q s, nth_error l q = Some s ->
                nth_error (combine (seq a (List.length l)) l) q = Some ((a + q)%nat, s)).
      { induction l as [|x l IH]; intros a [|q'] s' Hs; cbn in *; try discriminate.
        - inversion Hs; subst. rewrite Nat.add_0_r. reflexivity.
        - rewrite (IH (S a) q' s' Hs). f_equal. f_equal. lia. }
      apply (G _ 0 q s Hq). }
    rewrite nth_error_map, Hc. cbn [option_map].
    destruct isActiveShape; reflexivity.
Qed.

End EngineFacts.

(** ** Ellipse constructor and its inverse, over the real numbers *)

Section EllipseFacts.

Context {N : Type} {num : JsNum N}.

Lemma cellOfPoints_holds (pts : list (N * N)) : holdsPoints (cellOfPoints pts) pts.
Proof.
  intros i p Hp. destruct pts as [|p0 rest]; [destruct i; discriminate|].
  destruct i as [|i]; cbn in Hp |- *.
  - inversion Hp; subst. eexists; split; [reflexivity|]. split; reflexivity.
  - rewrite nth_error_map, Hp. cbn. eexists; split; [reflexivity|].
    split; reflexivity.
Qed.

Lemma numAt_holds (cell : Cell) (pts : list (N * N)) (i : nat) (p : N * N) :
  holdsPoints cell pts -> nth_error pts i = Some p ->
  numAt cell i 1 = Ret (fst p) /\ numAt cell i 2 = Ret (snd p).
Proof.
  intros H Hp. destruct (H i p Hp) as (t & Ht & H1 & H2).
  unfold numAt, cellAt. rewrite Ht. cbn [ofOption bind]. rewrite H1, H2.
  split; reflexivity.
Qed.




(** The point [handleEllipse] puts at index [i] when neither radius is
    falsy. *)
Lemma handleEllipse_nth (start end_ : N * N) (i : nat) :
  let pos := ellipseOver {| x0 := fst start; y0 := snd start;
                            x1 := fst end_; y1 := snd end_ |} in
  let cx := ndiv (nadd (x1 pos) (x0 pos)) (ofZ 2) in
  let cy := ndiv (nadd (y1 pos) (y0 pos)) (ofZ 2) in
  let rx := ndiv (nsub (x1 pos) (x0 pos)) (ofZ 2) in
  let ry := ndiv (nsub (y1 pos) (y0 pos)) (ofZ 2) in
  let t := ndiv (nmul (nmul (ofZ (Z.of_nat i)) (ofZ 2)) Math_PI)
                (ofZ (Z.of_nat CIRCLE_SIDES)) in
  truthy rx = true -> truthy ry = true -> i < CIRCLE_SIDES ->
  nth_error (handleEllipse true start end_) i
  = Some (nadd cx (nmul rx (Math_cos t)), nadd cy (nmul ry (Math_sin t))).
Proof.
  intros pos cx cy rx ry t Hrx Hry Hi.
  unfold handleEllipse. cbn [negb].
  fold pos. fold cx cy rx ry. rewrite Hrx. cbn [negb]. rewrite Hry. cbn [negb].
  rewrite nth_error_map, nth_error_seq.
  destruct (Nat.ltb_spec i CIRCLE_SIDES); [reflexivity | lia].
Qed.

End EllipseFacts.

Module RealFacts.

Local Open Scope R_scope.
Local Abbreviation sqrt := R_sqrt.sqrt.

Lemma truthy_nonzero (x : R) : x <> 0 -> truthy x = true.
Proof.
  intros H. unfold truthy. cbn.
  destruct (Req_dec_T x 0) as [E|_]; [contradiction|].
  destruct (Req_dec_T x x) as [_|E]; [reflexivity | contradiction].
Qed.



Lemma sqrt2_sq : sqrt 2 * sqrt 2 = 2.
Proof. apply sqrt_sqrt. lra. Qed.

Lemma sqrt2_pos : 0 < sqrt 2.
Proof. apply sqrt_lt_R0. lra. Qed.

(** The bounding box [ellipseOver] computes, in closed form. *)
Lemma ellipseOver_real (a b c d : R) :
  ellipseOver {| x0 := a; y0 := b; x1 := c; y1 := d |}
  = {| x0 := a - sqrt 2 * (c - a); y0 := b - sqrt 2 * (d - b);
       x1 := a + sqrt 2 * (c - a); y1 := b + sqrt 2 * (d - b) |}.
Proof.
  unfold ellipseOver, SQRT2. cbn. f_equal; field.
Qed.

(** The vertices of the polygon of [handleEllipse], in closed form. *)
Lemma handleEllipse_real (sx sy ex ey : R) :
  ex <> sx -> ey <> sy ->
  forall i : nat, (i < CIRCLE_SIDES)%nat ->
    nth_error (handleEllipse true (sx, sy) (ex, ey)) i
    = Some (sx + sqrt 2 * (ex - sx) * cos (IZR (Z.of_nat i) * 2 * PI / 32),
            sy + sqrt 2 * (ey - sy) * sin (IZR (Z.of_nat i) * 2 * PI / 32)).
Proof.
  intros Hx Hy i Hi. pose proof sqrt2_pos as Hs.
  rewrite handleEllipse_nth; try assumption.
  - rewrite ellipseOver_real. cbn. f_equal. f_equal; f_equal; try field.
  - rewrite ellipseOver_real. cbn. apply truthy_nonzero.
    intros E. apply Hx. nra.
  - rewrite ellipseOver_real. cbn. apply truthy_nonzero.
    intros E. apply Hy. nra.
Qed.

(** The corners read off the polygon of [handleEllipse]: the first drag
    corner, and the second one, reflected in the first when the cardinal
    vertices are used. *)
Lemma sampledCorners_handleEllipse (isActiveShape : option bool) (cell : Cell)
    (sx sy ex ey : R) :
  ex <> sx -> ey <> sy ->
  holdsPoints cell (handleEllipse true (sx, sy) (ex, ey)) ->
  sampledCorners isActiveShape cell =
  Ret (if isFalse isActiveShape
       then {| x0 := sx; y0 := sy; x1 := 2 * sx - ex; y1 := 2 * sy - ey |}
       else {| x0 := sx; y0 := sy; x1 := ex; y1 := ey |}).
Proof.
  intros Hx Hy Hcell.
  pose proof sqrt2_pos as Hs.
  pose proof (handleEllipse_real Hx Hy) as Hpt.
  assert (A0 : IZR (Z.of_nat i000) * 2 * PI / 32 = 0) by (cbn; field).
  assert (A45 : IZR (Z.of_nat i045) * 2 * PI / 32 = PI / 4) by (cbn; field).
  assert (A90 : IZR (Z.of_nat i090) * 2 * PI / 32 = PI / 2) by (cbn; field).
  assert (A180 : IZR (Z.of_nat i180) * 2 * PI / 32 = PI) by (cbn; field).
  assert (A270 : IZR (Z.of_nat i270) * 2 * PI / 32 = 3 * (PI / 2)) by (cbn; field).
  destruct (numAt_holds _ Hcell (Hpt i000 ltac:(unfold i000, CIRCLE_SIDES; lia)))
    as [X0 Y0].
  destruct (numAt_holds _ Hcell (Hpt i045 ltac:(vm_compute; lia))) as [X45 Y45].
  destruct (numAt_holds _ Hcell (Hpt i090 ltac:(vm_compute; lia))) as [X90 Y90].
  destruct (numAt_holds _ Hcell (Hpt i180 ltac:(vm_compute; lia))) as [X180 Y180].
  destruct (numAt_holds _ Hcell (Hpt i270 ltac:(vm_compute; lia))) as [X270 Y270].
  cbn [fst snd] in *.
  rewrite A0, cos_0 in X0. rewrite A0, sin_0 in Y0.
  rewrite A45, cos_PI4 in X45. rewrite A45, sin_PI4 in Y45.
  rewrite A90, cos_PI2 in X90. rewrite A90, sin_PI2 in Y90.
  rewrite A180, cos_PI in X180. rewrite A180, sin_PI in Y180.
  rewrite A270, cos_3PI2 in X270. rewrite A270, sin_3PI2 in Y270.
  unfold sampledCorners.
  destruct (isFalse isActiveShape).
  - rewrite X0, Y0, X90, Y90, X180, Y180, X270, Y270. cbn [bind].
    unfold cos45, sin45. cbn.
    rewrite cos_PI4, sin_PI4. apply f_equal. f_equal; field; lra.
  - rewrite X0, Y0, X180, Y180, X45, Y45. cbn [bind].
    cbn. apply f_equal. f_equal; field; lra.
Qed.

Lemma toCorners_handleEllipse (isActiveShape : option bool) (cell : Cell)
    (sx sy ex ey : R) :
  ex <> sx -> ey <> sy ->
  holdsPoints cell (handleEllipse true (sx, sy) (ex, ey)) ->
  toCorners isActiveShape cell =
  Ret (if isFalse isActiveShape
       then {| x0 := sx + sqrt 2 * (ex - sx); y0 := sy + sqrt 2 * (ey - sy);
               x1 := sx - sqrt 2 * (ex - sx); y1 := sy - sqrt 2 * (ey - sy) |}
       else {| x0 := sx - sqrt 2 * (ex - sx); y0 := sy - sqrt 2 * (ey - sy);
               x1 := sx + sqrt 2 * (ex - sx); y1 := sy + sqrt 2 * (ey - sy) |}).
Proof.
  intros Hx Hy Hcell. unfold toCorners.
  rewrite (sampledCorners_handleEllipse isActiveShape Hx Hy Hcell). cbn [bind].
  destruct (isFalse isActiveShape); rewrite ellipseOver_real;
    apply f_equal; f_equal; ring.
Qed.

Lemma sqrt2_bounds : 1.4 < sqrt 2 < 1.5.
Proof.
  pose proof sqrt2_sq. pose proof sqrt2_pos. split; nra.
Qed.

(** The amended form of C6.  For drag corners [(sx, sy)] and [(ex, ey)]
    that differ in both coordinates, and a cell holding the points of
    [handleEllipse], the corners read off the cell are the drag corners when
    the vertex at 45 degrees is used, and the first drag corner with the
    second one reflected in it when the cardinal vertices are used
    ([isActiveShape === false]); the anchors derived from the cell are not
    these corners but [ellipseOver] of them, the bounding box of the
    ellipse: centre [(sx, sy)], half-extents [sqrt 2 * (ex - sx)] and
    [sqrt 2 * (ey - sy)], its two corners exchanged in the second case. *)
Theorem toCorners_fromCorners (isActiveShape : option bool) (cell : Cell)
    (sx sy ex ey : R) :
  ex <> sx -> ey <> sy ->
  holdsPoints cell (handleEllipse true (sx, sy) (ex, ey)) ->
  let box := ellipseOver {| x0 := sx; y0 := sy; x1 := ex; y1 := ey |} in
  box = {| x0 := sx - sqrt 2 * (ex - sx); y0 := sy - sqrt 2 * (ey - sy);
           x1 := sx + sqrt 2 * (ex - sx); y1 := sy + sqrt 2 * (ey - sy) |} /\
  sampledCorners isActiveShape cell =
  Ret (if isFalse isActiveShape
       then {| x0 := sx; y0 := sy; x1 := 2 * sx - ex; y1 := 2 * sy - ey |}
       else {| x0 := sx; y0 := sy; x1 := ex; y1 := ey |}) /\
  toCorners isActiveShape cell =
  Ret (if isFalse isActiveShape
       then {| x0 := x1 box; y0 := y1 box; x1 := x0 box; y1 := y0 box |}
       else box).
Proof.
  intros Hx Hy Hcell box. subst box.
  rewrite (toCorners_handleEllipse isActiveShape Hx Hy Hcell).
  rewrite (sampledCorners_handleEllipse isActiveShape Hx Hy Hcell).
  rewrite ellipseOver_real. split; [reflexivity|]. split; [reflexivity|].
  destruct (isFalse isActiveShape); reflexivity.
Qed.

Lemma toCorners_fromCorners_witness :
  toCorners None (cellOfPoints (handleEllipse true (0, 0) (10, 10))) =
  Ret (ellipseOver {| x0 := 0; y0 := 0; x1 := 10; y1 := 10 |}).
Proof.
  assert (H : (10 : R) <> 0) by lra.
  exact (proj2 (proj2 (@toCorners_fromCorners None
                  (cellOfPoints (handleEllipse true (0, 0) (10, 10))) 0 0 10 10
                  H H (cellOfPoints_holds _)))).
Defined.

(** C6 as stated fails: from the drag corners [(0, 0)] and [(10, 10)] the
    derived corners are [-10 * sqrt 2] and [10 * sqrt 2] in both
    coordinates, more than 4 away from 0 and from 10, with either sampling
    rule. *)
Lemma toCorners_not_inverse :
  exists fresh edited : Pos,
    toCorners None (cellOfPoints (handleEllipse true (0, 0) (10, 10))) = Ret fresh /\
    toCorners (Some false) (cellOfPoints (handleEllipse true (0, 0) (10, 10)))
      = Ret edited /\
    x0 fresh < 0 - 14 /\ 10 + 4 < x1 fresh /\
    0 + 14 < x0 edited /\ x1 edited < 10 - 24.
Proof.
  assert (H : (10 : R) <> 0) by lra.
  pose proof sqrt2_bounds as B.
  eexists. eexists.
  rewrite !(@toCorners_handleEllipse _ _ 0 0 10 10 H H (cellOfPoints_holds _)).
  cbn [isFalse]. split; [reflexivity|]. split; [reflexivity|].
  cbn [x0 x1]. repeat split; lra.
Qed.

(** A drag along one axis gives a circle: when the corners share their x
    (their y) the polygon of [handleEllipse] lies on the circle around the
    first corner whose radius is the difference in y (in x). *)
Theorem handleEllipse_degenerate (sx sy ex ey : R) (i : nat) :
  (i < CIRCLE_SIDES)%nat ->
  (ex = sx /\ ey <> sy \/ ey = sy /\ ex <> sx) ->
  let r := if Req_dec_T ex sx then ey - sy else ex - sx in
  let t := IZR (Z.of_nat i) * 2 * PI / 32 in
  nth_error (handleEllipse true (sx, sy) (ex, ey)) i
  = Some (sx + r * cos t, sy + r * sin t).
Proof.
  intros Hi Hd r t. pose proof sqrt2_pos as Hs.
  unfold handleEllipse. cbn [negb]. rewrite ellipseOver_real.
  cbn [x0 y0 x1 y1 fst snd].
  assert (Z0 : forall a : R, truthy (ndiv (nsub (a + sqrt 2 * (a - a))
                                                (a - sqrt 2 * (a - a))) (ofZ 2)) = false).
  { intros a. unfold truthy. cbn.
    destruct (Req_dec_T ((a + sqrt 2 * (a - a) - (a - sqrt 2 * (a - a))) / 2) 0)
      as [_|F]; [reflexivity|]. exfalso. apply F. field. }
  assert (NZ : forall a b : R, b <> a ->
             (a + sqrt 2 * (b - a) - (a - sqrt 2 * (b - a))) / 2 <> 0).
  { intros a b Hab E. apply Hab. nra. }
  subst r. destruct Hd as [[-> Hy] | [-> Hx]].
  - destruct (Req_dec_T sx sx) as [_|F]; [|contradiction].
    rewrite Z0. cbn [negb]. rewrite truthy_nonzero.
    2:{ unfold SQRT2. cbn. intros E. apply (NZ sy ey Hy).
        apply (Rmult_eq_reg_r (/ sqrt 2)); [|apply Rinv_neq_0_compat; lra].
        rewrite Rmult_0_l. exact E. }
    cbn [negb]. rewrite nth_error_map, nth_error_seq.
    destruct (Nat.ltb_spec i CIRCLE_SIDES); [|lia]. cbn [option_map].
    unfold SQRT2. cbn. subst t. f_equal. f_equal; field; lra.
  - destruct (Req_dec_T ex sx) as [E|_]; [contradiction|].
    rewrite truthy_nonzero by (cbn; apply NZ, Hx).
    cbn [negb]. rewrite Z0. cbn [negb]. rewrite nth_error_map, nth_error_seq.
    destruct (Nat.ltb_spec i CIRCLE_SIDES); [|lia]. cbn [option_map].
    unfold SQRT2. cbn. subst t. f_equal. f_equal; field; lra.
Qed.

Lemma handleEllipse_degenerate_witness :
  nth_error (handleEllipse true (0, 0) (0, 5)) 8
  = Some (0 + (5 - 0) * cos (8 * 2 * PI / 32), 0 + (5 - 0) * sin (8 * 2 * PI / 32)).
Proof.
  assert (H : (5 : R) <> 0) by lra.
  assert (E : (if Req_dec_T 0 0 then 5 - 0 else 0 - 0) = 5 - 0)
    by (destruct (Req_dec_T 0 0); [reflexivity | contradiction]).
  rewrite <- E.
  exact (@handleEllipse_degenerate 0 0 0 5 8 ltac:(cbv; lia) (or_introl (conj eq_refl H))).
Defined.





End RealFacts.

(** ** Round trip of the codec *)

Section CodecFacts.

Context {N : Type} {num : JsNum N} {host : JsHost N}.
Variables (size : @Size N) (isActiveShape : option bool).

Local Abbreviation step := (readStep size None isActiveShape).
Local Abbreviation push := (pushTuple size None isActiveShape).

Lemma setNth_id {A} (l : list A) (i : nat) (v : A) :
  nth_error l i = Some v -> setNth l i v = l.
Proof.
  revert i; induction l as [|a l IH]; intros [|i] H; cbn in *; try discriminate.
  - inversion H; reflexivity.
  - f_equal. apply IH, H.
Qed.

(** Without a plot context a tuple is stored as it was built. *)
Lemma mapPair_None (xy : N * N) (cs : list N) (k : nat) :
  snd (mapPair size None isActiveShape (xy, cs) k) = cs.
Proof.
  unfold mapPair.
  destruct (nth_error cs k) as [a|] eqn:Ea; [|reflexivity].
  destruct (nth_error cs (k + 1)) as [b|] eqn:Eb; [|reflexivity].
  cbn [snd]. rewrite (setNth_id _ _ Ea). apply setNth_id, Eb.
Qed.

Lemma mapTuple_None (xy : N * N) (t : Tuple) :
  snd (mapTuple size None isActiveShape xy t) = t.
Proof.
  unfold mapTuple. cbn [fold_left].
  destruct (mapPair size None isActiveShape (xy, coords t) 0) as [xy0 cs0] eqn:E0.
  pose proof (mapPair_None xy (coords t) 0) as H0. rewrite E0 in H0. cbn in H0. subst cs0.
  destruct (mapPair size None isActiveShape (xy0, coords t) 2) as [xy2 cs2] eqn:E2.
  pose proof (mapPair_None xy0 (coords t) 2) as H2. rewrite E2 in H2. cbn in H2. subst cs2.
  destruct (mapPair size None isActiveShape (xy2, coords t) 4) as [xy4 cs4] eqn:E4.
  pose proof (mapPair_None xy2 (coords t) 4) as H4. rewrite E4 in H4. cbn in H4. subst cs4.
  destruct t; reflexivity.
Qed.

Lemma commandsOf_app (ps qs : @Polygons N) :
  commandsOf (ps ++ qs) = commandsOf ps ++ commandsOf qs.
Proof. apply flat_map_app. Qed.

Lemma commandsOf_pushLast (ps ps' : @Polygons N) (t : Tuple) :
  pushLast ps t = Ret ps' -> commandsOf ps' = commandsOf ps ++ [commandOf t].
Proof.
  unfold pushLast. destruct (rev ps) as [|cell before] eqn:E; [discriminate|].
  intros H; inversion H; subst ps'; clear H.
  assert (Hps : ps = rev before ++ [cell]).
  { rewrite <- (rev_involutive ps), E. reflexivity. }
  rewrite Hps, !commandsOf_app. unfold commandsOf at 2 4. cbn [flat_map].
  rewrite !app_nil_r, map_app, <- app_assoc. reflexivity.
Qed.

Lemma fold_Throw {A} (f : res (@ReadState N) -> A -> res ReadState) (l : list A) :
  (forall a, f Throw a = Throw) -> fold_left f l Throw = Throw.
Proof.
  intros H. induction l as [|a l IH]; cbn; [reflexivity|]. rewrite H. exact IH.
Qed.

Lemma push_Throw (t : Tuple) : push Throw t = Throw.
Proof. reflexivity. Qed.

Lemma step_Throw (c : RawCmd) : step Throw c = Throw.
Proof. reflexivity. Qed.

(** What the tuples pushed by one command add to the commands spelled. *)
Lemma commandsOf_push (ts : list Tuple) (st st2 : ReadState) :
  fold_left push ts (Ret st) = Ret st2 ->
  commandsOf (polys st2) = commandsOf (polys st) ++ map commandOf ts /\
  initX st2 = initX st /\ initY st2 = initY st.
Proof.
  revert st. induction ts as [|t ts IH]; intros st H; cbn in H.
  - inversion H; subst. rewrite app_nil_r. auto.
  - destruct (mapTuple size None isActiveShape (cur_x st, cur_y st) t) as [xy t'] eqn:Et.
    pose proof (mapTuple_None (cur_x st, cur_y st) t) as Ht. rewrite Et in Ht.
    cbn in Ht. subst t'.
    destruct (pushLast (polys st) t) as [ps|] eqn:Ep; cbn [bind] in H.
    + destruct (IH _ H) as (Hc & Hx & Hy). cbn [polys initX initY] in *.
      rewrite Hc, (commandsOf_pushLast _ _ Ep), <- app_assoc. auto.
    + rewrite fold_Throw in H by apply push_Throw. discriminate.
Qed.

(** A line tuple is pushed the same way when it is read back. *)
Lemma replay_lines (ts : list Tuple) (acc : res ReadState) :
  Forall (fun t => exists a b : N, t = mkTuple "L" [a; b]) ts ->
  fold_left step (map commandOf ts) acc = fold_left push ts acc.
Proof.
  intros H. revert acc. induction H as [|t ts (a & b & ->) _ IH]; intros acc.
  - reflexivity.
  - cbn [map fold_left]. rewrite IH. f_equal.
Qed.

(** Reading one command, then spelling and reading back the tuples it
    pushed, ends in the same state. *)
Lemma replay (st st2 : ReadState) (cmd : RawCmd) :
  step (Ret st) cmd = Ret st2 ->
  exists ts : list Tuple,
    commandsOf (polys st2) = commandsOf (polys st) ++ map commandOf ts /\
    fold_left step (map commandOf ts) (Ret st) = Ret st2.
Proof.
  destruct cmd as [c args]. unfold readStep. cbn [bind].
  unfold switchCmd. cbn [fst].
  assert (Single : forall (st1 : ReadState) (t : Tuple),
    commandsOf (polys st1) = commandsOf (polys st) ->
    fold_left step [commandOf t] (Ret st) = fold_left push [t] (Ret st1) ->
    fold_left push [t] (Ret st1) = Ret st2 ->
    exists ts : list Tuple,
      commandsOf (polys st2) = commandsOf (polys st) ++ map commandOf ts /\
      fold_left step (map commandOf ts) (Ret st) = Ret st2).
  { intros st1 t Hc Hr H. exists [t]. split.
    - destruct (commandsOf_push _ _ H) as (Hp & _). rewrite Hp, Hc. reflexivity.
    - cbn [map]. rewrite Hr. exact H. }
  destruct (String.eqb_spec c "M") as [->|_].
  { apply Single; [|reflexivity].
    cbn [polys]. rewrite commandsOf_app. cbn. apply app_nil_r. }
  destruct (String.eqb_spec c "Q") as [->|_]; [apply Single; reflexivity|].
  destruct (String.eqb_spec c "S") as [->|_]; [apply Single; reflexivity|].
  cbn [orb].
  destruct (String.eqb_spec c "C") as [->|_]; [apply Single; reflexivity|].
  destruct (String.eqb_spec c "T") as [->|_]; [apply Single; reflexivity|].
  destruct (String.eqb_spec c "L") as [->|_]; [apply Single; reflexivity|].
  cbn [orb].
  destruct (String.eqb_spec c "H") as [->|_]; [apply Single; reflexivity|].
  destruct (String.eqb_spec c "V") as [->|_]; [apply Single; reflexivity|].
  destruct (String.eqb_spec c "A") as [->|_].
  { destruct (if negb (truthy (arg ("A", args) 4))
              then (nopp (arg ("A", args) 1), nopp (arg ("A", args) 2))
              else (arg ("A", args) 1, arg ("A", args) 2)) as [rx ry].
    intros H. eexists. split.
    - destruct (commandsOf_push _ _ H) as (Hp & _). exact Hp.
    - rewrite replay_lines; [exact H|].
      unfold arcTuples. apply Forall_forall. intros t Ht.
      apply in_map_iff in Ht. destruct Ht as (k & <- & _). eauto. }
  destruct (String.eqb_spec c "Z") as [->|_].
  { destruct (negb (neqb (cur_x st) (initX st)) || negb (neqb (cur_y st) (initY st)))
      eqn:E.
    - apply Single; [reflexivity|].
      cbn [map fold_left]. unfold readStep. cbn [bind]. unfold switchCmd.
      cbn [fst commandOf letter String.eqb Ascii.eqb Bool.eqb]. rewrite E. reflexivity.
    - cbn [fold_left]. intros H; inversion H; subst st2. exists [].
      rewrite app_nil_r. split; reflexivity. }
  cbn [fold_left]. intros H; inversion H; subst st2. exists [].
  rewrite app_nil_r. split; reflexivity.
Qed.

(** Reading the commands spelled for what was read ends in the same state. *)
Lemma reread (cmd : list RawCmd) (st : ReadState) :
  fold_left step cmd (Ret readStart) = Ret st ->
  fold_left step (commandsOf (polys st)) (Ret readStart) = Ret st.
Proof.
  revert st. induction cmd as [|c cmd IH] using rev_ind; intros st H.
  - cbn in H. inversion H; subst. reflexivity.
  - rewrite fold_left_app in H. cbn [fold_left] in H.
    destruct (fold_left step cmd (Ret readStart)) as [st0|] eqn:E;
      [|discriminate].
    specialize (IH st0 eq_refl).
    destruct (replay _ _ H) as (ts & Hc & Hr).
    rewrite Hc, fold_left_app, IH. exact Hr.
Qed.

(** *** What [writePaths] writes for a decoded polygon set *)

Lemma concat_empty_cons (x : string) (xs : list string) :
  concat "" (x :: xs) = (x ++ concat "" xs)%string.
Proof.
  destruct xs as [|y ys]; cbn [concat].
  - induction x as [|c x IH]; cbn; [reflexivity | f_equal; exact IH].
  - reflexivity.
Qed.

Lemma append_assoc (a b c : string) : ((a ++ b) ++ c = a ++ (b ++ c))%string.
Proof.
  induction a as [|ch a IH]; cbn; [reflexivity | f_equal; exact IH].
Qed.

Lemma concat_empty_app (xs ys : list string) :
  concat "" (xs ++ ys) = (concat "" xs ++ concat "" ys)%string.
Proof.
  induction xs as [|x xs IH]; [reflexivity|].
  cbn [app]. rewrite !concat_empty_cons, IH, append_assoc. reflexivity.
Qed.

(** A decoded tuple is written as its command is spelled. *)
Lemma writeTuple_spells (t : Tuple) :
  decodedTuple t -> writeTuple t = spellCommand (commandOf t).
Proof.
  destruct t as [w cs]. unfold decodedTuple. cbn [letter coords].
  assert (nil_r : forall x : string, (x ++ "")%string = x).
  { induction x as [|ch x IH]; cbn; [reflexivity | f_equal; exact IH]. }
  intros [(a & b & -> & [->|[->|[->| ->]]])
         |[(a & b & c & d & -> & [->| ->])
          |(a & b & c & d & e & f & -> & ->)]];
    cbv [writeTuple spellCommand commandOf letter coords realK iQS iC elemStr
         String.eqb Ascii.eqb Bool.eqb orb andb List.length seq map flat_map
         nth_error app fst snd concat Nat.ltb Nat.leb Nat.sub];
    cbn [String.append];
    rewrite ?append_assoc, ?nil_r; cbn [String.append]; reflexivity.
Qed.

(** The tuples pushed while reading without a plot context are decoded
    tuples. *)
Lemma switchCmd_decoded (st : ReadState) (cmd : RawCmd) :
  Forall decodedTuple (snd (switchCmd st cmd)).
Proof.
  destruct cmd as [c args]. unfold switchCmd. cbn [fst].
  assert (Two : forall (w : string) (a b : N),
            w = "M" \/ w = "T" \/ w = "L" \/ w = "Z" ->
            Forall decodedTuple [mkTuple w [a; b]]).
  { intros w a b Hw. constructor; [|constructor]. left. exists a, b. auto. }
  destruct (String.eqb_spec c "M") as [->|_]; [apply Two; auto|].
  destruct (String.eqb_spec c "Q") as [->|_].
  { constructor; [|constructor]. right; left. repeat eexists. auto. }
  destruct (String.eqb_spec c "S") as [->|_].
  { constructor; [|constructor]. right; left. repeat eexists. auto. }
  cbn [orb].
  destruct (String.eqb_spec c "C") as [->|_].
  { constructor; [|constructor]. right; right. repeat eexists. }
  destruct (String.eqb_spec c "T") as [->|_]; [apply Two; auto|].
  destruct (String.eqb_spec c "L") as [->|_]; [apply Two; auto|].
  cbn [orb].
  destruct (String.eqb_spec c "H") as [->|_]; [apply Two; auto|].
  destruct (String.eqb_spec c "V") as [->|_]; [apply Two; auto|].
  destruct (String.eqb_spec c "A") as [->|_].
  { destruct (if negb (truthy (arg ("A", args) 4))
              then (nopp (arg ("A", args) 1), nopp (arg ("A", args) 2))
              else (arg ("A", args) 1, arg ("A", args) 2)) as [rx ry].
    cbn [snd]. unfold arcTuples. apply Forall_forall. intros t Ht.
    apply in_map_iff in Ht. destruct Ht as (k & <- & _).
    left. repeat eexists. auto. }
  destruct (String.eqb_spec c "Z") as [->|_].
  { destruct (negb (neqb (cur_x st) (initX st)) || negb (neqb (cur_y st) (initY st)));
      [apply Two; auto | constructor]. }
  constructor.
Qed.

Lemma push_decoded (ts : list Tuple) (st st2 : ReadState) :
  Forall decodedTuple ts ->
  Forall (Forall decodedTuple) (polys st) ->
  fold_left push ts (Ret st) = Ret st2 ->
  Forall (Forall decodedTuple) (polys st2).
Proof.
  intros Hts. revert st. induction Hts as [|t ts Ht _ IH]; intros st Hst H; cbn in H.
  - inversion H; subst. exact Hst.
  - destruct (mapTuple size None isActiveShape (cur_x st, cur_y st) t) as [xy t'] eqn:Et.
    pose proof (mapTuple_None (cur_x st, cur_y st) t) as E. rewrite Et in E.
    cbn in E. subst t'.
    destruct (pushLast (polys st) t) as [ps|] eqn:Ep; cbn [bind] in H.
    + refine (IH _ _ H). cbn [polys].
      unfold pushLast in Ep. destruct (rev (polys st)) as [|cell before] eqn:Er;
        [discriminate|]. inversion Ep; subst ps.
      assert (Hps : polys st = rev before ++ [cell]).
      { rewrite <- (rev_involutive (polys st)), Er. reflexivity. }
      rewrite Hps in Hst. apply Forall_app in Hst. destruct Hst as [Hb Hc].
      apply Forall_app. split; [exact Hb|].
      constructor; [|constructor]. apply Forall_app. split.
      * inversion Hc; assumption.
      * constructor; [exact Ht | constructor].
    + rewrite fold_Throw in H by apply push_Throw. discriminate.
Qed.

Lemma read_decoded (cmd : list RawCmd) (st : ReadState) :
  fold_left step cmd (Ret readStart) = Ret st ->
  Forall (Forall decodedTuple) (polys st).
Proof.
  revert st. induction cmd as [|c cmd IH] using rev_ind; intros st H.
  - cbn in H. inversion H; subst. constructor.
  - rewrite fold_left_app in H. cbn [fold_left] in H.
    destruct (fold_left step cmd (Ret readStart)) as [st0|] eqn:E;
      [|discriminate].
    specialize (IH st0 eq_refl). unfold readStep in H. cbn [bind] in H.
    pose proof (switchCmd_decoded st0 c) as Hts.
    destruct (switchCmd st0 c) as [st1 newPos] eqn:Es. cbn [snd] in Hts.
    apply push_decoded with (ts := newPos) (st := st1); [exact Hts | | exact H].
    (* the switch keeps the cells, or opens an empty one *)
    clear H Hts. destruct c as [w args]. unfold switchCmd in Es. cbn [fst] in Es.
    repeat match type of Es with
           | (if ?b then _ else _) = _ => destruct b
           | (let '(_, _) := ?p in _) = _ => destruct p
           end;
      inversion Es; subst; cbn [polys setXY]; try exact IH.
    apply Forall_app. split; [exact IH | constructor; constructor].
Qed.

(** For polygons made of decoded tuples, [writePaths] writes the commands
    of [commandsOf] as path text. *)
Lemma writePaths_spells (P : Polygons) :
  P <> [] -> Forall (Forall decodedTuple) P ->
  writePaths P = spell (commandsOf P).
Proof.
  intros Hne HP. unfold writePaths.
  destruct P as [|cell0 P0]; [contradiction|]. cbn [List.length Nat.eqb].
  clear Hne. unfold spell, commandsOf.
  induction HP as [|cell P Hcell _ IH]; [reflexivity|].
  cbn [map flat_map]. rewrite concat_empty_cons, map_app, concat_empty_app, IH.
  f_equal. clear IH. induction Hcell as [|t ts Ht _ IHt]; [reflexivity|].
  cbn [map]. rewrite !concat_empty_cons, IHt, (writeTuple_spells Ht). reflexivity.
Qed.

End CodecFacts.

Section RoundTrip.

Context {N : Type} {num : JsNum N} {host : JsHost N}.

(** The amended form of C1.  Let [P] be a polygon set with a cell, decoded
    without a plot context.  Then [writePaths(P)] is the text of the
    commands of [P] (letters, and arguments in the order of the path
    syntax, with commas between them), and whenever the tokenizer returns
    these commands for it, decoding [writePaths(P)] without a plot context
    reproduces [P] exactly: same cells, same order, same letters, same
    coordinates. *)
Theorem readPaths_writePaths (str : string) (gd gd' : Gd)
    (isActiveShape isActiveShape' : option bool) (P : Polygons) :
  readPaths str gd None isActiveShape = Ret P ->
  P <> [] ->
  parseSvgPath (writePaths P) = Some (commandsOf P) ->
  writePaths P = spell (commandsOf P) /\
  readPaths (writePaths P) gd' None isActiveShape' = Ret P.
Proof.
  intros H Hne Htok. unfold readPaths in *. rewrite Htok. cbn [ofOption bind].
  destruct (parseSvgPath str) as [cmd|]; [|discriminate]. cbn [ofOption bind] in H.
  unfold readCommands in *.
  destruct (fold_left (readStep (_size gd) None isActiveShape) cmd (Ret readStart))
    as [st|] eqn:E; [|discriminate].
  cbn [bind] in H. inversion H; subst P; clear H. split.
  - apply writePaths_spells; [exact Hne|]. exact (read_decoded _ _ _ E).
  - change (readStep (_size gd') None isActiveShape')
      with (readStep (_size gd) None isActiveShape).
    rewrite (reread _ _ _ E). reflexivity.
Qed.

End RoundTrip.

(** ** Facts computed on binary64 *)

Module Binary64Facts.

Import Samples.
Local Open Scope float_scope.

Lemma readPaths_writePaths_witness :
  readPaths (writePaths triangle) chart None None = Ret triangle.
Proof.
  exact (proj2 (@readPaths_writePaths float Binary64.num Binary64.host
                  "M0,0H10V10.5Z" chart chart None None
                  triangle
                  ltac:(vm_compute; reflexivity)
                  ltac:(discriminate)
                  ltac:(vm_compute; reflexivity))).
Defined.

(** C1 as stated fails in three ways.  Decoding with a plot context maps
    the coordinates again: the segment from (2, 2) to (4, 4), written and
    read on a 2 by 2 paper, is [P1], and [P1] written and read the same way
    is [P2], whose first coordinate is 0.5 and not 1.  A polygon set decoded
    with a plot context need not come back even without one: on that paper
    the smallest positive number maps to 0, so the closing tuple of [P3] is
    not appended again.  And the empty polygon set, read from the text
    written for a polygon set with one empty cell, is written as ['M0,0Z']
    and read back with a cell. *)
Lemma readPaths_writePaths_not_identity :
  let P1 := [[mkTuple "M" [1; 0]; mkTuple "L" [2; -1]]] in
  let P2 := [[mkTuple "M" [0.5; 1]; mkTuple "L" [1; 1.5]]] in
  let P3 := [[mkTuple "M" [0; 1]; mkTuple "L" [0; 1]; mkTuple "Z" [0; 1]]] in
  let P4 := [[mkTuple "M" [0; 1]; mkTuple "L" [0; 1]]] in
  (readPaths (writePaths segment) chart (Some paper) None = Ret P1 /\
   readPaths (writePaths P1) chart (Some paper) None = Ret P2 /\
   almostEq 1 0.5 = false) /\
  (readPaths (writePaths sliver) chart (Some paper) None = Ret P3 /\
   readPaths (writePaths P3) chart None None = Ret P4) /\
  (writePaths emptyCell = "" /\
   readPaths (writePaths emptyCell) chart None None = Ret noCell /\
   readPaths (writePaths noCell) chart None None = Ret [[mkTuple "M" [0; 0]]]).
Proof.
  vm_compute. repeat split; reflexivity.
Qed.



Lemma clickVertexController_delete_witness :
  clickVertexController (mkOutline [pentagon] 0 2) 2
  = Ret (mkOutline [[mkTuple "M" [0; 0]; mkTuple "L" [4; 0];
                     mkTuple "L" [2; 5]; mkTuple "L" [-1; 3]]] 0 2).
Proof.
  exact (proj1 (proj1 (proj2 (@clickVertexController_delete float
                                (mkOutline [pentagon] 0 2) pentagon eq_refl
                                ltac:(cbv; lia)))
                      ltac:(cbv; lia))).
Defined.

(** The tests of the specification: the square is a rectangle, the square
    turned by 10 degrees is not. *)
Example pointsShapeRectangle_square :
  pointsShapeRectangle square = true /\ pointsShapeRectangle turned = false.
Proof. vm_compute. split; reflexivity. Qed.

(** The tokenizer returns what [writePaths] spelled, curves and numbers in
    exponent form included. *)
Example parseSvgPath_writePaths :
  let P := [[mkTuple "M" [-0.5; 1e21]; mkTuple "Q" [3; 4; 1; 2];
             mkTuple "C" [5; 6; 1; 2; 3; 4]; mkTuple "S" [-3; -4; -1; -2];
             mkTuple "T" [0x1p-21; 0.25]; mkTuple "Z" [-0.5; 1e21]]] in
  writePaths P = "M-0.5,1e+21Q1,2,3,4C1,2,3,4,5,6S-1,-2,-3,-4T4.76837158203125e-7,0.25Z"
  /\ parseSvgPath (writePaths P) = Some (commandsOf P)
  /\ readPaths (writePaths P) chart None None = Ret P.
Proof. vm_compute. repeat split; reflexivity. Qed.

(** [Z] compares exactly: a path that ends [1e-7] away from its start gets
    the closing tuple, a path that ends on its start gets none. *)
Example readPaths_Z_exact :
  readPaths "M0,0L10,0L0,0.0000001Z" chart None None
  = Ret [[mkTuple "M" [0; 0]; mkTuple "L" [10; 0]; mkTuple "L" [0; 0x1.ad7f29abcaf48p-24];
          mkTuple "Z" [0; 0]]] /\
  readPaths "M0,0L10,0L0,0Z" chart None None
  = Ret [[mkTuple "M" [0; 0]; mkTuple "L" [10; 0]; mkTuple "L" [0; 0]]].
Proof. vm_compute. split; reflexivity. Qed.

(** [hasChanged] compares exactly: the same anchors are no change and leave
    the entry as it was, an [x0] moved by [2^-40] is a change and is written
    to the entry. *)
Example reconcile_nudged :
  reconcile fullRect sameRect [] = (false, givenRect) /\
  almostEq 1 0x1.0000000001p+0 = true /\
  reconcile fullRect nudgedRect []
  = (true, mkInputShape (VStr "rect") (VNum 0x1.0000000001p+0) (VNum 2) (VNum 3)
             (VNum 4) VUndef).
Proof. vm_compute. repeat split; reflexivity. Qed.

(** The end-to-end test of the specification: the rectangle dragged from
    pixel (50, 50) to pixel (150, 120) becomes one new [rect] record with
    [x0 = 1.25] and [x1 = 3.75]. *)
Example addNewShapes_rect :
  addNewShapes openMode (Some "M50,50L50,120L150,120L150,50Z") rectDrag
  = Ret (Some [Added
      {| editable := true; xref := "x"; yref := "y";
         shape_layer := "above"; shape_opacity := 1;
         shape_line := mkLineStyle "#444" 4 "solid";
         shape_fill := Some ("rgba(0,0,0,0)", "evenodd");
         shape_type := "rect";
         shape_x0 := VNum 1.25; shape_y0 := VNum 7.5;
         shape_x1 := VNum 3.75; shape_y1 := VNum 4;
         shape_path := VUndef |}]).
Proof. vm_compute. reflexivity. Qed.

End Binary64Facts.

(** ** Structure of what the decoder returns *)

Section DecoderFacts.

Context {N : Type} {num : JsNum N} {host : JsHost N}.
Variables (size : @Size N) (plotinfo : option (@Plotinfo N)) (isActiveShape : option bool).

Local Abbreviation step := (readStep size plotinfo isActiveShape).
Local Abbreviation push := (pushTuple size plotinfo isActiveShape).
Local Abbreviation keep := (stored size plotinfo isActiveShape).

Local Abbreviation keepState := (storedState size plotinfo isActiveShape).
Local Abbreviation keepRes := (storedRes size plotinfo isActiveShape).

(** The current point a tuple leaves does not depend on the plot context,
    and the tuple stored does not depend on the current point. *)
Lemma mapTuple_split (flag : option bool) (xy : N * N) (t : Tuple) :
  mapTuple size plotinfo isActiveShape xy t =
  (fst (mapTuple size None flag xy t), keep t).
Proof.
  destruct t as [w cs]. destruct plotinfo as [pi|];
    destruct cs as [|a [|b [|c [|d [|e [|g rest]]]]]]; reflexivity.
Qed.

Lemma pushLast_map (g : Tuple -> @Tuple N) (ps : @Polygons N) (t : Tuple) :
  pushLast (map (map g) ps) (g t) = (ps' <- pushLast ps t ;; Ret (map (map g) ps')).
Proof.
  unfold pushLast, Polygons, Cell in *. rewrite <- map_rev.
  destruct (rev ps) as [|cell before]; cbn.
  - reflexivity.
  - rewrite map_app, map_rev. cbn. rewrite map_app. reflexivity.
Qed.

Lemma push_stored (flag : option bool) (ts : list Tuple) (acc : res ReadState) :
  fold_left push ts (keepRes acc) =
  keepRes (fold_left (pushTuple size None flag) ts acc).
Proof.
  revert acc. induction ts as [|t ts IH]; intros acc; [reflexivity|].
  cbn [fold_left]. rewrite <- IH. f_equal.
  destruct acc as [st|]; [|reflexivity]. cbn [storedRes bind pushTuple].
  cbn [storedState cur_x cur_y polys initX initY].
  rewrite (mapTuple_split flag). rewrite pushLast_map.
  pose proof (mapTuple_None size flag (cur_x st, cur_y st) t) as Ht.
  destruct (mapTuple size None flag (cur_x st, cur_y st) t) as [xy t'].
  cbn in Ht. subst t'. cbn [fst].
  destruct (pushLast (polys st) t); reflexivity.
Qed.

Lemma switchCmd_stored (st : ReadState) (c : RawCmd) :
  switchCmd (keepState st) c =
  (keepState (fst (switchCmd st c)), snd (switchCmd st c)).
Proof.
  destruct c as [w args]. unfold switchCmd, storedState. cbn [fst cur_x cur_y initX initY polys].
  repeat match goal with
         | |- context [if ?b then _ else _] => destruct b
         | |- context [let '(_, _) := ?p in _] => destruct p
         end;
    cbn [fst snd storedState setXY cur_x cur_y initX initY polys];
    rewrite ?map_app; reflexivity.
Qed.

Lemma step_stored (flag : option bool) (acc : res ReadState) (c : RawCmd) :
  step (keepRes acc) c = keepRes (readStep size None flag acc c).
Proof.
  destruct acc as [st|]; [|reflexivity]. cbn [storedRes bind readStep].
  rewrite switchCmd_stored. destruct (switchCmd st c) as [st1 newPos]. cbn [fst snd].
  exact (push_stored flag newPos (Ret st1)).
Qed.

Lemma read_stored (flag : option bool) (cmd : list RawCmd) (acc : res ReadState) :
  fold_left step cmd (keepRes acc) =
  keepRes (fold_left (readStep size None flag) cmd acc).
Proof.
  revert acc. induction cmd as [|c cmd IH]; intros acc; [reflexivity|].
  cbn [fold_left]. rewrite (step_stored flag). apply IH.
Qed.

(** *** Cells start with their only [M] *)

Lemma stored_decoded (t : Tuple) :
  letter t <> "M" /\ decodedTuple t -> letter (keep t) <> "M" /\ decodedTuple (keep t).
Proof.
  destruct t as [w cs]. unfold decodedTuple. cbn [letter coords].
  intros [Hw [(a & b & -> & Hl)
             |[(a & b & c & d & -> & Hl)
              |(a & b & c & d & e & f & -> & Hl)]]];
    (split; [destruct plotinfo; exact Hw|]).
  - left. destruct plotinfo; repeat eexists; exact Hl.
  - right; left. destruct plotinfo; repeat eexists; exact Hl.
  - right; right. destruct plotinfo; repeat eexists; exact Hl.
Qed.

Lemma stored_opened (cell : Cell) : openedByM cell -> openedByM (map keep cell).
Proof.
  intros (a & b & rest & -> & Hrest). unfold openedByM.
  destruct plotinfo as [pi|] eqn:E.
  - exists (mapX size pi isActiveShape a), (mapY size pi isActiveShape b), (map keep rest).
    split; [rewrite E; reflexivity|].
    rewrite E. apply Forall_map. rewrite <- E.
    eapply Forall_impl; [|exact Hrest]. intros t. apply stored_decoded.
  - exists a, b, (map keep rest). split; [rewrite E; reflexivity|].
    rewrite E. apply Forall_map. rewrite <- E.
    eapply Forall_impl; [|exact Hrest]. intros t. apply stored_decoded.
Qed.

(** Apart from [M], a command keeps the cells and builds tuples that are
    not [M] tuples. *)
Lemma switchCmd_rest (st : ReadState) (c : RawCmd) :
  fst c <> "M" ->
  polys (fst (switchCmd st c)) = polys st /\
  Forall (fun t => letter t <> "M" /\ decodedTuple t) (snd (switchCmd st c)).
Proof.
  intros HM. split.
  - destruct c as [w args]. unfold switchCmd. cbn [fst] in *.
    destruct (String.eqb_spec w "M") as [->|_]; [contradiction|].
    repeat match goal with
           | |- context [if ?b then _ else _] => destruct b
           | |- context [let '(_, _) := ?p in _] => destruct p
           end; reflexivity.
  - pose proof (switchCmd_decoded st c) as Hd.
    assert (Hl : Forall (fun t => letter t <> "M") (snd (switchCmd st c))).
    { destruct c as [w args]. unfold switchCmd. cbn [fst] in *.
      destruct (String.eqb_spec w "M") as [->|_]; [contradiction|].
      destruct (String.eqb_spec w "Q") as [->|_];
        [repeat constructor; discriminate|].
      destruct (String.eqb_spec w "S") as [->|_];
        [repeat constructor; discriminate|].
      cbn [orb].
      destruct (String.eqb_spec w "C") as [->|_];
        [repeat constructor; discriminate|].
      destruct (String.eqb_spec w "T") as [->|_];
        [repeat constructor; discriminate|].
      destruct (String.eqb_spec w "L") as [->|_];
        [repeat constructor; discriminate|].
      cbn [orb].
      destruct (String.eqb_spec w "H") as [->|_];
        [repeat constructor; discriminate|].
      destruct (String.eqb_spec w "V") as [->|_];
        [repeat constructor; discriminate|].
      destruct (String.eqb_spec w "A") as [->|_].
      { destruct (if negb (truthy (arg ("A", args) 4))
                  then (nopp (arg ("A", args) 1), nopp (arg ("A", args) 2))
                  else (arg ("A", args) 1, arg ("A", args) 2)) as [rx ry].
        cbn [snd]. unfold arcTuples. apply Forall_forall. intros t Ht.
        apply in_map_iff in Ht. destruct Ht as (k & <- & _). discriminate. }
      destruct (String.eqb_spec w "Z") as [->|_].
      { destruct (negb (neqb (cur_x st) (initX st)) || negb (neqb (cur_y st) (initY st)));
          repeat constructor; discriminate. }
      constructor. }
    revert Hd Hl. generalize (snd (switchCmd st c)). intros ts Hd.
    induction Hd as [|t ts Ht _ IH]; intros Hl; [constructor|].
    inversion Hl; subst. constructor; auto.
Qed.

Lemma pushLast_opened (ps ps' : @Polygons N) (t : Tuple) :
  letter t <> "M" /\ decodedTuple t ->
  Forall openedByM ps -> pushLast ps t = Ret ps' -> Forall openedByM ps'.
Proof.
  intros Ht Hps. unfold pushLast.
  destruct (rev ps) as [|cell before] eqn:Er; [discriminate|].
  intros H; inversion H; subst ps'; clear H.
  assert (E : ps = rev before ++ [cell]).
  { rewrite <- (rev_involutive ps), Er. reflexivity. }
  rewrite E in Hps. apply Forall_app in Hps. destruct Hps as [Hb Hc].
  apply Forall_app. split; [exact Hb|]. constructor; [|constructor].
  inversion Hc as [|? ? (a & b & rest & -> & Hrest) _]; subst.
  exists a, b, (rest ++ [t]). split; [reflexivity|].
  apply Forall_app. split; [exact Hrest | constructor; [exact Ht | constructor]].
Qed.

Lemma push_opened (flag : option bool) (ts : list Tuple) (st st2 : ReadState) :
  Forall (fun t => letter t <> "M" /\ decodedTuple t) ts ->
  Forall openedByM (polys st) ->
  fold_left (pushTuple size None flag) ts (Ret st) = Ret st2 ->
  Forall openedByM (polys st2).
Proof.
  intros Hts. revert st. induction Hts as [|t ts Ht _ IH]; intros st Hst H; cbn in H.
  - inversion H; subst. exact Hst.
  - pose proof (mapTuple_None size flag (cur_x st, cur_y st) t) as E.
    destruct (mapTuple size None flag (cur_x st, cur_y st) t) as [xy t'].
    cbn in E. subst t'.
    destruct (pushLast (polys st) t) as [ps|] eqn:Ep; cbn [bind] in H.
    + refine (IH _ _ H). cbn [polys]. exact (pushLast_opened Ht Hst Ep).
    + rewrite fold_Throw in H by reflexivity. discriminate.
Qed.

Lemma step_opened (flag : option bool) (st st2 : ReadState) (c : RawCmd) :
  Forall openedByM (polys st) ->
  readStep size None flag (Ret st) c = Ret st2 ->
  Forall openedByM (polys st2).
Proof.
  intros Hst. unfold readStep. cbn [bind].
  destruct (String.eqb_spec (fst c) "M") as [E|E].
  - destruct c as [w args]. cbn [fst] in E. subst w. unfold switchCmd.
    cbn [fst String.eqb Ascii.eqb Bool.eqb fold_left pushTuple bind polys cur_x cur_y].
    pose proof (mapTuple_None size flag (arg ("M", args) 1, arg ("M", args) 2)
                  (mkTuple "M" [arg ("M", args) 1; arg ("M", args) 2])) as Et.
    destruct (mapTuple _ _ _ _ _) as [xy t']. cbn in Et. subst t'.
    unfold pushLast. rewrite rev_app_distr. cbn [rev app bind].
    rewrite rev_involutive. intros H; inversion H; subst st2; clear H. cbn [polys].
    apply Forall_app. split; [exact Hst|]. constructor; [|constructor].
    eexists _, _, []. split; [reflexivity | constructor].
  - destruct (switchCmd_rest st c E) as [Hp Hts].
    destruct (switchCmd st c) as [st1 newPos]. cbn [fst snd] in *.
    intros H. apply push_opened with (flag := flag) (ts := newPos) (st := st1);
      [exact Hts | rewrite Hp; exact Hst | exact H].
Qed.

Lemma read_opened (flag : option bool) (cmd : list RawCmd) (st : ReadState) :
  fold_left (readStep size None flag) cmd (Ret readStart) = Ret st ->
  Forall openedByM (polys st).
Proof.
  revert st. induction cmd as [|c cmd IH] using rev_ind; intros st H.
  - cbn in H. inversion H; subst. constructor.
  - rewrite fold_left_app in H. cbn [fold_left] in H.
    destruct (fold_left (readStep size None flag) cmd (Ret readStart)) as [st0|] eqn:E;
      [|discriminate].
    apply step_opened with (flag := flag) (st := st0) (c := c);
      [exact (IH st0 eq_refl) | exact H].
Qed.

(** *** When the decoder throws *)

Lemma push_total (ts : list Tuple) (st : ReadState) :
  polys st <> [] ->
  exists st2 : ReadState, fold_left push ts (Ret st) = Ret st2 /\ polys st2 <> [].
Proof.
  revert st. induction ts as [|t ts IH]; intros st Hst; [exists st; auto|].
  cbn [fold_left pushTuple bind].
  destruct (mapTuple size plotinfo isActiveShape (cur_x st, cur_y st) t) as [xy t'].
  unfold pushLast. destruct (rev (polys st)) as [|cell before] eqn:Er.
  - exfalso. apply Hst. rewrite <- (rev_involutive (polys st)), Er. reflexivity.
  - cbn [bind]. apply IH. cbn [polys]. intros E. apply app_eq_nil in E.
    destruct E as [_ E]. discriminate E.
Qed.

(** Once a cell is open, no command throws. *)
Lemma step_total (st : ReadState) (c : RawCmd) :
  polys st <> [] ->
  exists st2 : ReadState, step (Ret st) c = Ret st2 /\ polys st2 <> [].
Proof.
  intros Hst. unfold readStep. cbn [bind].
  assert (H1 : polys (fst (switchCmd st c)) <> []).
  { destruct (String.eqb_spec (fst c) "M") as [E|E].
    - destruct c as [w args]. cbn [fst] in E. subst w. unfold switchCmd.
      cbn [fst String.eqb Ascii.eqb Bool.eqb polys]. intros E. apply app_eq_nil in E.
      destruct E as [_ E]. discriminate E.
    - destruct (switchCmd_rest st c E) as [-> _]. exact Hst. }
  destruct (switchCmd st c) as [st1 newPos]. cbn [fst] in H1.
  apply push_total. exact H1.
Qed.

Lemma read_total (cmd : list RawCmd) (st : ReadState) :
  polys st <> [] ->
  exists st2 : ReadState, fold_left step cmd (Ret st) = Ret st2 /\ polys st2 <> [].
Proof.
  revert st. induction cmd as [|c cmd IH]; intros st Hst; [exists st; auto|].
  cbn [fold_left]. destruct (@step_total st c Hst) as (st1 & -> & H1). exact (IH _ H1).
Qed.

Lemma step_ignored (acc : res ReadState) (c : RawCmd) :
  hasCase (fst c) = false -> step acc c = acc.
Proof.
  destruct c as [w args]. unfold hasCase. cbn [fst existsb]. intros H.
  repeat (apply orb_false_elim in H; destruct H as [?E H]).
  destruct acc as [st|]; [|reflexivity].
  unfold readStep, switchCmd. cbn [bind fst]. rewrite E, E0, E1, E2, E3, E4, E5, E6, E7, E8.
  reflexivity.
Qed.

Lemma push_empty (ts : list Tuple) (st : ReadState) :
  polys st = [] -> ts <> [] -> fold_left push ts (Ret st) = Throw.
Proof.
  intros Hst Hts. destruct ts as [|t ts]; [contradiction|].
  cbn [fold_left pushTuple bind].
  destruct (mapTuple size plotinfo isActiveShape (cur_x st, cur_y st) t) as [xy t'].
  rewrite Hst. cbn [pushLast rev bind]. apply fold_Throw. reflexivity.
Qed.

Lemma draws_notM (w : string) : draws w = true -> w <> "M".
Proof. intros H ->. discriminate H. Qed.

Lemma draws_newPos (st : ReadState) (c : RawCmd) :
  draws (fst c) = true -> snd (switchCmd st c) <> [].
Proof.
  destruct c as [w args]. unfold draws, switchCmd. cbn [fst existsb].
  destruct (String.eqb_spec w "M") as [->|_]; [discriminate|].
  destruct (String.eqb_spec w "Q") as [->|_]; [discriminate|].
  destruct (String.eqb_spec w "S") as [->|_]; [discriminate|].
  cbn [orb].
  destruct (String.eqb_spec w "C") as [->|_]; [discriminate|].
  destruct (String.eqb_spec w "T") as [->|_]; [discriminate|].
  destruct (String.eqb_spec w "L") as [->|_]; [discriminate|].
  cbn [orb].
  destruct (String.eqb_spec w "H") as [->|_]; [discriminate|].
  destruct (String.eqb_spec w "V") as [->|_]; [discriminate|].
  destruct (String.eqb_spec w "A") as [->|_]; [|discriminate].
  destruct (if negb (truthy (arg ("A", args) 4))
            then (nopp (arg ("A", args) 1), nopp (arg ("A", args) 2))
            else (arg ("A", args) 1, arg ("A", args) 2)) as [rx ry].
  discriminate.
Qed.

Lemma step_unopened (st : ReadState) (c : RawCmd) :
  polys st = [] -> draws (fst c) = true -> step (Ret st) c = Throw.
Proof.
  intros Hst Hc. unfold readStep. cbn [bind].
  pose proof (draws_newPos st c Hc) as Hn.
  destruct (switchCmd_rest st c (draws_notM Hc)) as [Hp _].
  destruct (switchCmd st c) as [st1 newPos]. cbn [fst snd] in *.
  apply push_empty; [rewrite Hp; exact Hst | exact Hn].
Qed.

Lemma read_ignored (cmd : list RawCmd) (acc : res ReadState) :
  fold_left step (filter (fun c : RawCmd => hasCase (fst c)) cmd) acc =
  fold_left step cmd acc.
Proof.
  revert acc. induction cmd as [|c cmd IH]; intros acc; [reflexivity|].
  cbn [filter fold_left]. destruct (hasCase (fst c)) eqn:E.
  - cbn [fold_left]. apply IH.
  - rewrite (step_ignored acc c E). apply IH.
Qed.

End DecoderFacts.

Section DecoderTheorems.

Context {N : Type} {num : JsNum N} {host : JsHost N}.

(** Decoding factors through the context-free decoder.  With a plot
    context, whatever the active-shape flags are, [readPaths] throws on the
    same commands as without one, and what it returns otherwise is what it
    returns without a plot context with every tuple replaced by its stored
    form: the letter kept and the coordinate pairs at elements 1-2, 3-4
    and 5-6 (end point and control points alike) sent through the
    coordinate mapper. *)
Theorem readCommands_stored (size : @Size N) (pi : Plotinfo)
    (isActiveShape flag : option bool) (cmd : list RawCmd) :
  let keep := stored size (Some pi) isActiveShape in
  let X := mapX size pi isActiveShape in
  let Y := mapY size pi isActiveShape in
  readCommands cmd size (Some pi) isActiveShape =
    (P <- readCommands cmd size None flag ;; Ret (map (map keep) P)) /\
  (forall (w : string) (a b c d e f : N),
     keep (mkTuple w [a; b]) = mkTuple w [X a; Y b] /\
     keep (mkTuple w [a; b; c; d]) = mkTuple w [X a; Y b; X c; Y d] /\
     keep (mkTuple w [a; b; c; d; e; f]) = mkTuple w [X a; Y b; X c; Y d; X e; Y f]).
Proof.
  intros keep X Y. split.
  - unfold readCommands.
    change (Ret (@readStart N num))
      with (storedRes size (Some pi) isActiveShape (Ret readStart)) at 1.
    rewrite (read_stored size (Some pi) isActiveShape flag).
    destruct (fold_left (readStep size None flag) cmd (Ret readStart)); reflexivity.
  - intros w a b c d e f. repeat split; reflexivity.
Qed.

(** Every cell [readPaths] returns starts with an [M] tuple, which is
    its only one, and goes on with tuples of the decoded forms: two
    coordinates after [T], [L] and [Z], four after [Q] and [S], six after
    [C].  In particular no cell is empty, and no [H], [V] or [A] is left. *)
Theorem readCommands_cells (size : @Size N) (plotinfo : option Plotinfo)
    (isActiveShape : option bool) (cmd : list RawCmd) (P : Polygons) :
  readCommands cmd size plotinfo isActiveShape = Ret P ->
  Forall openedByM P.
Proof.
  unfold readCommands.
  change (Ret (@readStart N num))
    with (storedRes size plotinfo isActiveShape (Ret readStart)) at 1.
  rewrite (read_stored size plotinfo isActiveShape isActiveShape).
  destruct (fold_left (readStep size None isActiveShape) cmd (Ret readStart))
    as [st|] eqn:E; [|discriminate].
  cbn [storedRes bind storedState polys]. intros H; inversion H; subst P; clear H.
  apply Forall_map. eapply Forall_impl; [|exact (read_opened size isActiveShape cmd E)].
  intros cell. apply stored_opened.
Qed.

(** A drawing command ([Q], [S], [C], [T], [L], [H], [V] or [A]) that
    comes before any [M] makes [readPaths] throw (the [TypeError] of
    [polys[-1].push]), whatever follows it; after an [M], the same commands
    are decoded and give a cell. *)
Theorem readCommands_unopened (size : @Size N) (plotinfo : option Plotinfo)
    (isActiveShape : option bool) (w : string) (args start : list N)
    (rest : list RawCmd) :
  draws w = true ->
  readCommands ((w, args) :: rest) size plotinfo isActiveShape = Throw /\
  exists P : Polygons,
    readCommands (("M", start) :: (w, args) :: rest) size plotinfo isActiveShape = Ret P /\
    P <> [].
Proof.
  intros Hw. unfold readCommands. split.
  - cbn [fold_left].
    rewrite (step_unopened size plotinfo isActiveShape readStart (w, args) eq_refl Hw).
    rewrite fold_Throw by reflexivity. reflexivity.
  - assert (H1 : exists st1 : ReadState,
               readStep size plotinfo isActiveShape (Ret readStart) ("M", start)
                 = Ret st1 /\ polys st1 <> []).
    { unfold readStep, switchCmd.
      cbn [bind fst String.eqb Ascii.eqb Bool.eqb fold_left pushTuple polys
           readStart cur_x cur_y app].
      destruct (mapTuple _ _ _ _ _) as [xy t']. cbn [pushLast rev app bind].
      eexists. split; [reflexivity | discriminate]. }
    destruct H1 as (st1 & E1 & H1).
    destruct (read_total size plotinfo isActiveShape ((w, args) :: rest) st1 H1)
      as (st2 & E2 & Hne).
    exists (polys st2). split; [|exact Hne].
    cbn [fold_left] in *. rewrite E1, E2. reflexivity.
Qed.

(** Commands whose letter has no [case] in the decoder, the lowercase
    (relative) commands among them, are skipped without a trace: the result
    is the one for the path without them. *)
Theorem readCommands_ignores (size : @Size N) (plotinfo : option Plotinfo)
    (isActiveShape : option bool) (cmd : list RawCmd) :
  readCommands cmd size plotinfo isActiveShape =
  readCommands (filter (fun c : RawCmd => hasCase (fst c)) cmd)
               size plotinfo isActiveShape.
Proof.
  unfold readCommands. rewrite read_ignored. reflexivity.
Qed.

End DecoderTheorems.

(** ** What the synthesizer returns *)

Section SynthesizerFacts.

Context {N : Type} {num : JsNum N} {host : JsHost N}.
Variable openMode : string -> bool.

Lemma map_combine_seq {A B} (f : A -> B) (g : nat * A -> B) (l : list A) (a : nat) :
  (forall (q : nat) (x : A), g (q, x) = f x) ->
  map g (combine (seq a (List.length l)) l) = map f l.
Proof.
  intros H. revert a. induction l as [|x l IH]; intros a; [reflexivity|].
  cbn. rewrite H, IH. reflexivity.
Qed.

Lemma nth_error_combine_seq {A} (l : list A) (a q : nat) (x : A) :
  nth_error l q = Some x ->
  nth_error (combine (seq a (List.length l)) l) q = Some ((a + q)%nat, x).
Proof.
  revert a q. induction l as [|y l IH]; intros a [|q] H; cbn in *; try discriminate.
  - inversion H. rewrite Nat.add_0_r. reflexivity.
  - rewrite (IH (S a) q H). do 2 f_equal. lia.
Qed.

(** What [addNewShapes] does to the shapes that are there.  While a
    new shape is drawn ([isActiveShape] undefined), the list returned is the
    input objects of all existing shapes, unchanged and in order, followed by
    the new records, of which there is at least one.  While a shape is
    edited, the list has exactly the existing shapes, one entry each: no
    record is added or dropped, and every entry but the one at the active
    index is the shape's input object as it was. *)
Theorem addNewShapes_entries (d : string) (o : DragOptions) (l : list Entry) :
  addNewShapes openMode (Some d) o = Ret (Some l) ->
  match isActiveShape o with
  | None =>
      exists news : list Shape,
        news <> [] /\
        l = map (fun s : FullShape => Existing (_input s)) (shapes (gd o)) ++
            map (@Added N) news
  | Some _ =>
      List.length l = List.length (shapes (gd o)) /\
      Forall (fun e : Entry => exists i : InputShape, e = Existing i) l /\
      forall (q : nat) (s : FullShape),
        nth_error (shapes (gd o)) q = Some s ->
        Z.of_nat q <> _activeShapeIndex (gd o) ->
        nth_error l q = Some (Existing (_input s))
  end.
Proof.
  unfold addNewShapes.
  destruct (activeDragmode (gd o) (isActiveShape o) (dragmode o)) as [mode|];
    [|discriminate].
  cbn [bind].
  destruct (readPaths d (gd o) (Some (plotinfo o)) (isActiveShape o)) as [P|];
    [|discriminate].
  cbn [bind].
  destruct (newShapesOf openMode (gd o) (plotinfo o) (isActiveShape o) mode P)
    as [[|first others]|]; try discriminate.
  cbn [bind]. unfold reconciled.
  destruct (isActiveShape o) as [b|]; intros H; inversion H; subst l; clear H.
  - split; [|split].
    + rewrite !length_map, length_combine, length_seq. apply Nat.min_id.
    + apply Forall_map, Forall_map, Forall_forall. intros x _. eexists. reflexivity.
    + intros q s Hq Hne. rewrite nth_error_map, nth_error_map.
      rewrite (nth_error_combine_seq _ 0 _ Hq). cbn [option_map Nat.add].
      destruct (Z.eqb_spec (Z.of_nat q) (_activeShapeIndex (gd o))) as [E|_];
        [contradiction | reflexivity].
  - exists (first :: others). split; [discriminate|]. f_equal.
    rewrite (map_combine_seq (fun s : FullShape => _input s)); [|intros; reflexivity].
    rewrite map_map. reflexivity.
Qed.

(** [addNewShapes] with an active-shape flag and a negative
    [_activeShapeIndex] throws (the [TypeError] of [shapes[id].type]) before
    the outline is read: the guard [id < shapes.length] lets a negative
    index through. *)
Theorem addNewShapes_negative_index (d : string) (o : DragOptions) (b : bool) :
  isActiveShape o = Some b ->
  (_activeShapeIndex (gd o) < 0)%Z ->
  addNewShapes openMode (Some d) o = Throw.
Proof.
  intros Hb Hid. unfold addNewShapes, activeDragmode. rewrite Hb.
  destruct (Z.ltb_spec (_activeShapeIndex (gd o)) (Z.of_nat (List.length (shapes (gd o)))))
    as [_|H]; [|lia].
  destruct (Z.ltb_spec (_activeShapeIndex (gd o)) 0) as [_|H]; [|lia].
  reflexivity.
Qed.

(** *** Paths *)

Lemma jsPlus_paths (others : list Shape) (cells : list (@Cell N)) (a : string) :
  map (@shape_path N) others = map (fun c : Cell => VStr (writePaths [c])) cells ->
  fold_left (fun (p : Val) (s : Shape) => jsPlus p (shape_path s)) others (VStr a) =
  VStr (a ++ concat "" (map (fun c : Cell => concat "" (map writeTuple c)) cells)).
Proof.
  revert cells a. induction others as [|s others IH]; intros [|c cells] a H;
    try discriminate.
  - cbn. f_equal. induction a as [|ch a IHa]; cbn; [reflexivity | f_equal; exact IHa].
  - cbn [map] in H. inversion H as [[Hs Ho]]. cbn [fold_left map].
    rewrite Hs. cbn [jsPlus valToString]. rewrite (IH cells _ Ho).
    rewrite concat_empty_cons, append_assoc. reflexivity.
Qed.

Lemma newShapesOf_paths (gd : Gd) (pi : Plotinfo) (flag : option bool) (mode : string)
    (P : Polygons) :
  mode <> "drawrect" -> mode <> "drawline" -> mode <> "drawcircle" ->
  exists news : list Shape,
    newShapesOf openMode gd pi flag mode P = Ret news /\
    map (@shape_path N) news =
    map (fun c : Cell => VStr (writePaths [c])) (filter longCell P).
Proof.
  intros Hr Hl Hc. induction P as [|cell P (news & E & Hn)].
  - exists []. split; reflexivity.
  - cbn [newShapesOf filter]. unfold longCell at 1.
    destruct (List.length cell <? 2)%nat; cbn [negb].
    + exists news. split; assumption.
    + unfold shapeOfCell.
      destruct (String.eqb_spec mode "drawrect") as [?|_]; [contradiction|].
      destruct (String.eqb_spec mode "drawline") as [?|_]; [contradiction|].
      destruct (String.eqb_spec mode "drawcircle") as [?|_]; [contradiction|].
      cbn [andb bind]. rewrite E. cbn [bind].
      eexists. split; [reflexivity|]. cbn [map shape_path]. rewrite Hn. reflexivity.
Qed.

(** Editing a path.  In a mode other than [drawrect], [drawline] and
    [drawcircle] (an active shape of type [path] sets [drawclosedpath] or
    [drawopenpath]), the path of the record compared with the active shape
    is the encoding by [writePaths] of all decoded cells with two tuples
    or more, the paths of the cells appended into one string; the input
    object of the shape gets this path when it is not the shape's path
    already, and keeps its own otherwise. *)
Theorem reconcile_path (gd : Gd) (pi : Plotinfo) (flag : option bool) (mode : string)
    (P : Polygons) (beforeEdit : FullShape) (first : Shape) (others : list Shape) :
  mode <> "drawrect" -> mode <> "drawline" -> mode <> "drawcircle" ->
  full_type beforeEdit = "path" ->
  newShapesOf openMode gd pi flag mode P = Ret (first :: others) ->
  let path := VStr (writePaths (filter longCell P)) in
  shape_path (afterEditOf beforeEdit first others) = path /\
  in_path (snd (reconcile beforeEdit first others)) =
    (if strictEq (full_path beforeEdit) path then in_path (_input beforeEdit) else path).
Proof.
  intros Hr Hl Hc Hty H path.
  destruct (newShapesOf_paths gd pi flag P Hr Hl Hc) as (news & E & Hn).
  rewrite H in E. inversion E; subst news; clear E.
  assert (Ha : shape_path (afterEditOf beforeEdit first others) = path).
  { unfold afterEditOf. rewrite Hty. cbn [String.eqb Ascii.eqb Bool.eqb setPath shape_path].
    destruct (filter longCell P) as [|c cells] eqn:Ef; [discriminate|].
    cbn [map] in Hn. inversion Hn as [[Hf Ho]]. rewrite Hf.
    rewrite (jsPlus_paths _ _ _ Ho). subst path. unfold writePaths.
    cbn [List.length Nat.eqb map]. rewrite !concat_empty_cons. cbn [concat].
    do 2 f_equal.
    assert (nil_r : forall x : string, (x ++ "")%string = x).
    { induction x as [|ch x IH]; cbn; [reflexivity | f_equal; exact IH]. }
    apply nil_r. }
  split; [exact Ha|].
  unfold reconcile. rewrite Hty. cbn [String.eqb Ascii.eqb Bool.eqb orb hasChanged].
  cbn [beforeGet afterGet]. rewrite Ha.
  destruct (strictEq (full_path beforeEdit) path); reflexivity.
Qed.

(** *** The placeholder *)

(** The placeholder [writePaths] writes for no polygon makes no
    shape.  When the tokenizer reads it as a move to a point of two numbers
    (numbers equal themselves) and a close, [addNewShapes] on it returns
    [undefined] in every mode, creating and updating nothing; it throws
    only where the lookup of the active shape does. *)
Theorem addNewShapes_placeholder (o : DragOptions) (z1 z2 : N) :
  parseSvgPath (writePaths []) = Some [("M", [z1; z2]); ("Z", [])] ->
  neqb z1 z1 = true -> neqb z2 z2 = true ->
  addNewShapes openMode (Some (writePaths [])) o =
    (mode <- activeDragmode (gd o) (isActiveShape o) (dragmode o) ;; Ret None).
Proof.
  intros Htok H1 H2. unfold addNewShapes.
  destruct (activeDragmode (gd o) (isActiveShape o) (dragmode o)) as [mode|];
    [|reflexivity].
  cbn [bind]. unfold readPaths. rewrite Htok. cbn [ofOption bind].
  unfold readCommands, readStep, switchCmd.
  cbn [fold_left bind fst String.eqb Ascii.eqb Bool.eqb orb readStart polys app
       pushTuple cur_x cur_y initX initY arg snd nth_error Nat.sub toNum].
  unfold mapTuple, mapPair.
  cbn [fold_left coords nth_error Nat.add Nat.eqb setNth letter fst snd pushLast rev app
       bind polys cur_x cur_y initX initY].
  rewrite H1, H2. cbn [negb orb fold_left bind polys newShapesOf List.length Nat.ltb Nat.leb].
  reflexivity.
Qed.

End SynthesizerFacts.

(** ** Moving an outline *)

Section MoveFacts.

Context {N : Type} {num : JsNum N}.
Local Open Scope js_scope.

Lemma copyCell_id (cell : @Cell N) : copyCell cell = cell.
Proof.
  unfold copyCell. induction cell as [|[w cs] cell IH]; [reflexivity|].
  cbn [map letter coords]. rewrite map_id, IH. reflexivity.
Qed.

Lemma recordPositions_from (polygonsIn before after : @Polygons N) :
  fold_left (fun (out : Polygons) (ic : nat * Cell) => putAt out (fst ic) (copyCell (snd ic)))
            (combine (seq (List.length before) (List.length polygonsIn)) polygonsIn)
            (before ++ after)
  = before ++ polygonsIn ++ skipn (List.length polygonsIn) after.
Proof.
  revert before after. induction polygonsIn as [|cell rest IH]; intros before after.
  - reflexivity.
  - cbn [List.length seq combine fold_left fst snd]. rewrite copyCell_id.
    assert (E : putAt (before ++ after) (List.length before) cell
                = (before ++ [cell]) ++ skipn 1 after).
    { unfold putAt. rewrite length_app. destruct after as [|c after].
      - cbn [List.length skipn]. rewrite Nat.add_0_r, Nat.ltb_irrefl, !app_nil_r.
        reflexivity.
      - replace (List.length before <? List.length before + List.length (c :: after))%nat
          with true by (symmetry; apply Nat.ltb_lt; cbn; lia).
        cbn [skipn]. rewrite <- app_assoc. cbn [app].
        clear. induction before as [|b before IHb]; cbn; [reflexivity|].
        f_equal. exact IHb. }
    rewrite E.
    replace (S (List.length before)) with (List.length (before ++ [cell]))
      by (rewrite length_app; cbn; lia).
    rewrite IH, <- app_assoc. cbn [app]. do 3 f_equal.
    destruct after as [|c after]; [destruct (List.length rest); reflexivity|].
    reflexivity.
Qed.

(** What [recordPositions] returns: the cells of [polygonsIn], copied tuple
    by tuple, then the entries of [polygonsOut] past them. *)
Lemma recordPositions_copy (polygonsOut polygonsIn : @Polygons N) :
  recordPositions polygonsOut polygonsIn =
  polygonsIn ++ skipn (List.length polygonsIn) polygonsOut.
Proof. exact (recordPositions_from polygonsIn [] polygonsOut). Qed.

Lemma movePairs_length (cs copy : list N) (dx dy : N) :
  List.length (movePairs cs copy dx dy) = List.length cs.
Proof.
  enough (H : (forall copy, List.length (movePairs cs copy dx dy) = List.length cs) /\
              (forall a copy, List.length (movePairs (a :: cs) copy dx dy)
                              = List.length (a :: cs))) by apply H.
  clear copy. induction cs as [|b cs [IH1 IH2]]; [split; reflexivity|].
  split; [apply IH2|]. intros a copy. cbn [movePairs List.length].
  rewrite IH1. reflexivity.
Qed.

(** The result of the loop over [k] reads the copy only. *)
Lemma movePairs_again (cs copy : list N) (dx dy dx' dy' : N) :
  movePairs (movePairs cs copy dx dy) copy dx' dy' = movePairs cs copy dx' dy'.
Proof.
  enough (H : (forall copy, movePairs (movePairs cs copy dx dy) copy dx' dy'
                            = movePairs cs copy dx' dy') /\
              (forall a copy, movePairs (movePairs (a :: cs) copy dx dy) copy dx' dy'
                              = movePairs (a :: cs) copy dx' dy')) by apply H.
  clear copy. induction cs as [|b cs [IH1 IH2]]; [split; reflexivity|].
  split; [apply IH2|]. intros a copy. cbn [movePairs]. rewrite IH1. reflexivity.
Qed.

Lemma moveTuple_again (copy : option Cell) (dx dy dx' dy' : N) (j : nat) (t t' : Tuple) :
  moveTuple copy dx dy j t = Ret t' ->
  moveTuple copy dx' dy' j t' = moveTuple copy dx' dy' j t.
Proof.
  unfold moveTuple. destruct (List.length (coords t) <? 2)%nat eqn:E.
  - intros H; inversion H; subst. rewrite E. reflexivity.
  - destruct copy as [cc|]; [|discriminate]. cbn [ofOption bind].
    destruct (nth_error cc j) as [c|]; [|discriminate]. cbn [ofOption bind].
    intros H; inversion H; subst t'; clear H. cbn [coords letter].
    rewrite movePairs_length, E, movePairs_again. reflexivity.
Qed.

Lemma mapMi_again {A} (f g : nat -> A -> res A) (i : nat) (l l' : list A) :
  (forall (j : nat) (a a' : A), f j a = Ret a' -> g j a' = g j a) ->
  mapMi f i l = Ret l' -> mapMi g i l' = mapMi g i l.
Proof.
  intros Hfg. revert i l'. induction l as [|a l IH]; intros i l' H; cbn in H.
  - inversion H; subst. reflexivity.
  - destruct (f i a) as [a'|] eqn:Ea; [|discriminate]. cbn [bind] in H.
    destruct (mapMi f (S i) l) as [bs|] eqn:El; [|discriminate]. cbn [bind] in H.
    inversion H; subst l'; clear H. cbn [mapMi].
    rewrite (Hfg _ _ _ Ea), (IH _ _ El). reflexivity.
Qed.

Lemma mapMi_length {A B} (f : nat -> A -> res B) (i : nat) (l : list A) (l' : list B) :
  mapMi f i l = Ret l' -> List.length l' = List.length l.
Proof.
  revert i l'. induction l as [|a l IH]; intros i l' H; cbn in H.
  - inversion H; subst. reflexivity.
  - destruct (f i a) as [a'|]; [|discriminate]. cbn [bind] in H.
    destruct (mapMi f (S i) l) as [bs|] eqn:El; [|discriminate]. cbn [bind] in H.
    inversion H; subst l'; clear H. cbn. f_equal. exact (IH _ _ El).
Qed.

(** A drag of the whole outline is measured from the snapshot, not
    from where the last step left the polygons: after one step of
    [moveShape], a second step gives what it would have given without the
    first, so the deltas handed to it do not add up; and a step keeps the
    number of cells. *)
Theorem moveShape_absolute (copyPolygons polygons polygons' : @Polygons N)
    (dx dy dx' dy' : N) :
  moveShape copyPolygons polygons dx dy = Ret polygons' ->
  List.length polygons' = List.length polygons /\
  moveShape copyPolygons polygons' dx' dy' = moveShape copyPolygons polygons dx' dy'.
Proof.
  unfold moveShape. destruct polygons as [|cell0 rest] eqn:EP.
  - cbn. intros H; inversion H; subst. split; reflexivity.
  - rewrite <- EP. replace (List.length polygons =? 0)%nat with false
      by (subst polygons; reflexivity).
    intros H. pose proof (mapMi_length _ _ _ H) as Hlen. split; [exact Hlen|].
    replace (List.length polygons' =? 0)%nat with false
      by (rewrite Hlen; subst polygons; reflexivity).
    refine (mapMi_again _ _ _ _ _ H). intros i cell cell' Hc.
    refine (mapMi_again _ _ _ _ _ Hc). intros j t t'. apply moveTuple_again.
Qed.

Lemma mapMi_shift (copy rest : @Cell N) (dx dy : N) (before : list Tuple) :
  copy = before ++ rest ->
  mapMi (moveTuple (Some copy) dx dy) (List.length before) rest =
  Ret (map (shiftTuple dx dy) rest).
Proof.
  revert before. induction rest as [|t rest IH]; intros before E; [reflexivity|].
  cbn [mapMi map].
  assert (Et : moveTuple (Some copy) dx dy (List.length before) t = Ret (shiftTuple dx dy t)).
  { unfold moveTuple, shiftTuple. destruct (List.length (coords t) <? 2)%nat eqn:El.
    - destruct t as [w [|a [|b cs]]]; try reflexivity. discriminate El.
    - cbn [ofOption bind]. rewrite E, nth_error_app2, Nat.sub_diag by lia. reflexivity. }
  rewrite Et. cbn [bind].
  replace (S (List.length before)) with (List.length (before ++ [t]))
    by (rewrite length_app; cbn; lia).
  rewrite IH; [reflexivity|]. rewrite <- app_assoc. exact E.
Qed.

Lemma mapMi_cells (copy rest : @Polygons N) (dx dy : N) (before : Polygons) :
  copy = before ++ rest ->
  mapMi (fun (i : nat) (cell : Cell) =>
           mapMi (moveTuple (nth_error copy i) dx dy) 0 cell)
        (List.length before) rest =
  Ret (map (map (shiftTuple dx dy)) rest).
Proof.
  revert before. induction rest as [|cell rest IH]; intros before E; [reflexivity|].
  cbn [mapMi map].
  replace (nth_error copy (List.length before)) with (Some cell)
    by (rewrite E, nth_error_app2, Nat.sub_diag by lia; reflexivity).
  pose proof (@mapMi_shift cell cell dx dy [] eq_refl) as Hs. cbn [List.length] in Hs.
  rewrite Hs. cbn [bind].
  replace (S (List.length before)) with (List.length (before ++ [cell]))
    by (rewrite length_app; cbn; lia).
  rewrite IH; [reflexivity|]. rewrite <- app_assoc. exact E.
Qed.

(** The first step of a drag translates the outline.  With the
    snapshot [recordPositions([], polygons)] that [displayOutlines] takes,
    [moveShape] never throws and moves every tuple of every cell: the
    letters, the number of cells and of tuples and the number of
    coordinates are kept, and of a decoded tuple the end point and each
    control point move by [(dx, dy)]. *)
Theorem moveShape_snapshot (polygons : @Polygons N) (dx dy : N) :
  moveShape (recordPositions [] polygons) polygons dx dy =
    Ret (map (map (shiftTuple dx dy)) polygons) /\
  (forall (w : string) (a b c d e f : N),
     shiftTuple dx dy (mkTuple w [a; b]) = mkTuple w [a + dx; b + dy] /\
     shiftTuple dx dy (mkTuple w [a; b; c; d]) =
       mkTuple w [a + dx; b + dy; c + dx; d + dy] /\
     shiftTuple dx dy (mkTuple w [a; b; c; d; e; f]) =
       mkTuple w [a + dx; b + dy; c + dx; d + dy; e + dx; f + dy]) /\
  (forall t : Tuple,
     letter (shiftTuple dx dy t) = letter t /\
     List.length (coords (shiftTuple dx dy t)) = List.length (coords t)).
Proof.
  split; [|split].
  - rewrite recordPositions_copy, skipn_nil, app_nil_r.
    unfold moveShape. destruct polygons as [|cell rest]; [reflexivity|].
    cbn [List.length Nat.eqb].
    exact (@mapMi_cells (cell :: rest) (cell :: rest) dx dy [] eq_refl).
  - intros w a b c d e f. repeat split; reflexivity.
  - intros t. split; [reflexivity|]. apply movePairs_length.
Qed.

End MoveFacts.

(** ** Moving a vertex *)

Section VertexFacts.

Context {N : Type} {num : JsNum N}.
Local Open Scope js_scope.

Local Abbreviation size := (fun t : @Tuple N => List.length (coords t)).

Lemma setElem_size (t t' : Tuple) (k : nat) (v : N) :
  setElem t k v = Some t' -> (size t <= size t')%nat /\ letter t' = letter t.
Proof.
  unfold setElem. destruct (k - 1 <? List.length (coords t))%nat.
  - intros H; inversion H; subst. cbn. rewrite setNth_length. auto.
  - destruct (k - 1 =? List.length (coords t))%nat; [|discriminate].
    intros H; inversion H; subst. cbn. rewrite length_app. split; [lia | reflexivity].
Qed.

Lemma setXYOf_size (t t' : Tuple) (x y : N) :
  setXYOf t x y = Some t' -> (size t <= size t')%nat.
Proof.
  unfold setXYOf. destruct (setElem t 1 x) as [t1|] eqn:E1; [|discriminate].
  intros E2. apply setElem_size in E1, E2. lia.
Qed.

Lemma moveOther_size (vertex pos pos' : Tuple) (x y : N) :
  moveOther vertex x y pos = Some pos' -> (size pos <= size pos')%nat.
Proof.
  unfold moveOther.
  destruct (if elemEq (elem pos 1) (elem vertex 1) then setElem pos 1 x else Some pos)
    as [pos1|] eqn:E1; [|discriminate].
  assert (H1 : (size pos <= size pos1)%nat).
  { destruct (elemEq (elem pos 1) (elem vertex 1)).
    - apply setElem_size in E1. lia.
    - inversion E1; subst. lia. }
  destruct (elemEq (elem pos1 2) (elem vertex 2)).
  - intros E2. apply setElem_size in E2. lia.
  - intros E2; inversion E2; subst. exact H1.
Qed.

Lemma moveOthers_size (vertex : Tuple) (indexJ : nat) (x y : N) (q : nat)
    (cell others : Cell) :
  moveOthers vertex indexJ x y q cell = Some others ->
  Forall2 (fun t t' : Tuple => (size t <= size t')%nat) cell others.
Proof.
  revert q others. induction cell as [|pos cell IH]; intros q others H; cbn in H.
  - inversion H; subst. constructor.
  - destruct (if (q =? indexJ)%nat then Some pos else moveOther vertex x y pos)
      as [pos'|] eqn:Ep; [|discriminate].
    destruct (moveOthers vertex indexJ x y (S q) cell) as [rest'|] eqn:Er;
      [|discriminate].
    inversion H; subst others; clear H. constructor; [|exact (IH _ _ Er)].
    destruct (q =? indexJ)%nat.
    + inversion Ep; subst. lia.
    + exact (moveOther_size _ _ _ _ Ep).
Qed.

Lemma Forall2_setNth {A B} (R : A -> B -> Prop) (l : list A) (l' : list B)
    (i : nat) (a : A) (b : B) :
  Forall2 R l l' -> nth_error l i = Some a -> R a b -> Forall2 R l (setNth l' i b).
Proof.
  intros H. revert i. induction H as [|x y l l' Hxy Hl IH]; intros [|i] Ha Hab;
    cbn in *; try discriminate.
  - inversion Ha; subst. constructor; assumption.
  - constructor; [exact Hxy | exact (IH _ Ha Hab)].
Qed.

(** A rejected move puts the copy back. *)
Lemma restoreCell_copy (cell1 rest before restored : @Cell N) :
  Forall2 (fun t1 c : Tuple => (size c <= size t1)%nat) cell1 rest ->
  restoreCell (before ++ rest) (List.length before) cell1 = Some (Ret restored) ->
  restored = rest.
Proof.
  intros H. revert before restored.
  induction H as [|t1 c cell1 rest Hc _ IH]; intros before restored E; cbn in E.
  - inversion E; subst. reflexivity.
  - rewrite nth_error_app2, Nat.sub_diag in E by lia. cbn [nth_error] in E.
    unfold restoreTuple in E.
    destruct (List.length (coords t1) <=? List.length (coords c))%nat eqn:El;
      [|discriminate].
    apply Nat.leb_le in El.
    replace (S (List.length before)) with (List.length (before ++ [c])) in E
      by (rewrite length_app; cbn; lia).
    replace (before ++ c :: rest) with ((before ++ [c]) ++ rest) in E
      by (rewrite <- app_assoc; reflexivity).
    destruct (restoreCell ((before ++ [c]) ++ rest) (List.length (before ++ [c])) cell1)
      as [[rest'|]|] eqn:Er; try discriminate.
    inversion E; subst restored; clear E.
    rewrite (IH _ _ Er). f_equal.
    replace (List.length (coords t1)) with (List.length (coords c)) by lia.
    rewrite firstn_all. destruct c; reflexivity.
Qed.

(** A rectangle stays a rectangle under a vertex drag.  When the cell
    of the dragged vertex is a rectangle for [pointsShapeRectangle] and the
    snapshot has tuples of the same sizes, what [moveVertexController]
    leaves in the cell is either again a rectangle for
    [pointsShapeRectangle], or exactly the snapshot of the cell: a move
    that would break or flatten the rectangle is undone as a whole.  No
    other cell is touched. *)
Theorem moveVertexController_rectangle (copyPolygons : @Polygons N) (o o' : Outline)
    (dx dy : N) (cell copy : Cell) :
  nth_error (polygons o) (indexI o) = Some cell ->
  nth_error copyPolygons (indexI o) = Some copy ->
  sameSizes cell copy ->
  pointsShapeRectangle cell = true ->
  moveVertexController copyPolygons o dx dy = Some (Ret o') ->
  exists cell' : Cell,
    o' = mkOutline (setNth (polygons o) (indexI o) cell') (indexI o) (indexJ o) /\
    (cell' = copy \/ pointsShapeRectangle cell' = true).
Proof.
  intros Hcell Hcopy Hsize Hrect. unfold moveVertexController.
  destruct (List.length (polygons o) =? 0)%nat eqn:E0.
  { apply Nat.eqb_eq in E0. destruct (polygons o); [|discriminate E0].
    destruct (indexI o); discriminate Hcell. }
  rewrite Hcopy, Hcell, Hrect.
  destruct (nth_error copy (indexJ o)) as [c|]; [|discriminate].
  destruct (nth_error cell (indexJ o)) as [vertex|] eqn:Ev; [|discriminate].
  set (x := toNum (elem c 1) + dx). set (y := toNum (elem c 2) + dy).
  destruct (moveOthers vertex (indexJ o) x y 0 cell) as [others|] eqn:Eo; [|discriminate].
  destruct (setXYOf vertex x y) as [vertex'|] eqn:Ex; [|discriminate].
  set (cell1 := setNth others (indexJ o) vertex').
  destruct (pointsShapeRectangle cell1) eqn:E1; cbn [negb].
  - intros H; inversion H; subst o'. exists cell1. auto.
  - destruct (restoreCell copy 0 cell1) as [[cell2|]|] eqn:Er; try discriminate.
    intros H; inversion H; subst o'. exists cell2. split; [reflexivity|]. left.
    apply (@restoreCell_copy cell1 copy [] cell2); [|exact Er].
    assert (Hle : Forall2 (fun t t' : Tuple => (size t <= size t')%nat) cell cell1).
    { apply Forall2_setNth with (a := vertex);
        [exact (moveOthers_size _ _ _ _ _ _ Eo) | exact Ev | exact (setXYOf_size _ _ _ Ex)]. }
    clearbody cell1. clear - Hle Hsize. unfold sameSizes in Hsize. revert cell1 Hle.
    induction Hsize as [|t c0 cell copy Htc _ IH]; intros cell1 Hle;
      inversion Hle; subst; constructor.
    + cbn in *. lia.
    + apply IH. assumption.
Qed.

Lemma setXYOf_elems (t t' : Tuple) (x y : N) :
  setXYOf t x y = Some t' ->
  letter t' = letter t /\ elem t' 1 = Some x /\ elem t' 2 = Some y.
Proof.
  unfold setXYOf, setElem, elem. destruct t as [w cs]. cbn [coords letter Nat.sub].
  destruct cs as [|a [|b cs]]; cbn; intros H; inversion H; subst; cbn; auto.
Qed.

(** What a vertex drag leaves alone.  [moveVertexController] keeps
    the number of cells and every cell but the one of the dragged vertex.
    In a cell that is not a rectangle for [pointsShapeRectangle] it keeps
    every tuple but the dragged one, whose elements 1 and 2 become those
    of the snapshot plus [(dx, dy)]; the letter stays. *)
Theorem moveVertexController_others (copyPolygons : @Polygons N) (o o' : Outline)
    (dx dy : N) :
  moveVertexController copyPolygons o dx dy = Some (Ret o') ->
  List.length (polygons o') = List.length (polygons o) /\
  (forall i : nat, i <> indexI o ->
     nth_error (polygons o') i = nth_error (polygons o) i) /\
  (forall cell : Cell,
     nth_error (polygons o) (indexI o) = Some cell ->
     pointsShapeRectangle cell = false ->
     exists (cell' : Cell) (c vertex vertex' : Tuple),
       nth_error (polygons o') (indexI o) = Some cell' /\
       (forall j : nat, j <> indexJ o -> nth_error cell' j = nth_error cell j) /\
       nth_error cell (indexJ o) = Some vertex /\
       nth_error cell' (indexJ o) = Some vertex' /\
       (exists copy : Cell, nth_error copyPolygons (indexI o) = Some copy /\
                            nth_error copy (indexJ o) = Some c) /\
       letter vertex' = letter vertex /\
       elem vertex' 1 = Some (toNum (elem c 1) + dx) /\
       elem vertex' 2 = Some (toNum (elem c 2) + dy)).
Proof.
  unfold moveVertexController.
  destruct (List.length (polygons o) =? 0)%nat eqn:E0.
  { intros H; inversion H; subst o'. split; [reflexivity|]. split; [reflexivity|].
    intros cell Hcell. apply Nat.eqb_eq in E0. destruct (polygons o); [|discriminate E0].
    destruct (indexI o); discriminate Hcell. }
  destruct (nth_error copyPolygons (indexI o)) as [copy|] eqn:Ecopy; [|discriminate].
  destruct (nth_error copy (indexJ o)) as [c|] eqn:Ec; [|discriminate].
  destruct (nth_error (polygons o) (indexI o)) as [cell0|] eqn:Ecell; [|discriminate].
  destruct (nth_error cell0 (indexJ o)) as [vertex|] eqn:Ev; [|discriminate].
  set (x := toNum (elem c 1) + dx). set (y := toNum (elem c 2) + dy).
  assert (HI : (indexI o < List.length (polygons o))%nat).
  { apply nth_error_Some. rewrite Ecell. discriminate. }
  assert (HJ : (indexJ o < List.length cell0)%nat).
  { apply nth_error_Some. rewrite Ev. discriminate. }
  assert (Put : forall X : Cell,
            Some (Ret (mkOutline (setNth (polygons o) (indexI o) X) (indexI o) (indexJ o)))
              = Some (Ret o') ->
            List.length (polygons o') = List.length (polygons o) /\
            (forall i : nat, i <> indexI o ->
               nth_error (polygons o') i = nth_error (polygons o) i) /\
            nth_error (polygons o') (indexI o) = Some X).
  { intros X H; inversion H; subst o'. cbn [polygons]. split; [apply setNth_length|].
    split; [|apply setNth_same; exact HI].
    intros i Hi. apply setNth_other. auto. }
  destruct (pointsShapeRectangle cell0) eqn:Erect.
  - destruct (moveOthers vertex (indexJ o) x y 0 cell0) as [others|]; [|discriminate].
    destruct (setXYOf vertex x y) as [vertex'|]; [|discriminate].
    destruct (negb (pointsShapeRectangle (setNth others (indexJ o) vertex'))).
    + destruct (restoreCell copy 0 (setNth others (indexJ o) vertex')) as [[cell2|]|];
        try discriminate.
      intros H. destruct (Put _ H) as (Hl & Hf & _). split; [exact Hl|].
      split; [exact Hf|]. intros cell Hcell Hr. inversion Hcell; subst cell.
      congruence.
    + intros H. destruct (Put _ H) as (Hl & Hf & _). split; [exact Hl|].
      split; [exact Hf|]. intros cell Hcell Hr. inversion Hcell; subst cell.
      congruence.
  - destruct (setXYOf vertex x y) as [vertex'|] eqn:Ex; [|discriminate].
    intros H. destruct (Put _ H) as (Hl & Hf & Hc). split; [exact Hl|].
    split; [exact Hf|]. intros cell Hcell _. inversion Hcell; subst cell.
    destruct (setXYOf_elems _ _ _ Ex) as (Hw & H1 & H2).
    exists (setNth cell0 (indexJ o) vertex'), c, vertex, vertex'.
    split; [exact Hc|]. split; [intros j Hj; apply setNth_other; auto|].
    split; [exact Ev|]. split; [apply setNth_same; exact HJ|].
    split; [exists copy; auto|]. auto.
Qed.

End VertexFacts.

(** ** A vertex drag from the snapshot *)

Section VertexSafety.

Context {N : Type} {num : JsNum N}.
Local Open Scope js_scope.

Local Abbreviation long := (fun t : @Tuple N => (2 <= List.length (coords t))%nat).
Local Abbreviation same :=
  (fun t t' : @Tuple N => List.length (coords t') = List.length (coords t)).







End VertexSafety.

(** ** The vertex buttons *)

Section ControllerFacts.

Context {N : Type} {num : JsNum N}.



End ControllerFacts.

(** ** Line tuples pushed one after the other *)

Section LineFacts.

Context {N : Type} {num : JsNum N}.
Variables (size : @Size N) (isActiveShape : option bool).




Local Open Scope js_scope.


End LineFacts.

(** ** Rectangles over the reals *)

Module RealShapes.

Import RealFacts.
Local Open Scope R_scope.
Local Abbreviation sqrt := R_sqrt.sqrt.








(** *** A dragged outline keeps its kind *)








(** *** A rectangle drawn *)

Section Drawn.

Context {host : JsHost R}.
Variable openMode : string -> bool.



End Drawn.

(** *** A circle read back *)

Lemma truthy_zero : truthy (0 : R) = false.
Proof. unfold truthy. cbn. destruct (Req_dec_T 0 0); [reflexivity | contradiction]. Qed.






(** *** Instances *)





End RealShapes.

(** ** An edited rectangle over the reals *)

Module RealEdit.

Import RealFacts RealShapes.
Local Open Scope R_scope.

Section Commit.

Context {host : JsHost R}.
Variable openMode : string -> bool.


End Commit.


End RealEdit.

(** ** Instances on binary64 *)

Module Binary64Runs.

Import Samples.
Local Open Scope float_scope.

Lemma readCommands_cells_witness : Forall openedByM triangle.
Proof.
  exact (@readCommands_cells float Binary64.num plot None None
           [("M", [0; 0]); ("H", [10]); ("V", [10.5]); ("Z", [])] triangle
           ltac:(vm_compute; reflexivity)).
Defined.

Lemma readCommands_unopened_witness :
  readCommands [("L", [1; 2]); ("Z", [])] plot None None = Throw /\
  exists P : Polygons,
    readCommands [("M", [0; 0]); ("L", [1; 2]); ("Z", [])] plot None None = Ret P /\
    P <> [].
Proof.
  exact (@readCommands_unopened float Binary64.num plot None None "L" [1; 2] [0; 0]
           [("Z", [])] eq_refl).
Defined.

Lemma addNewShapes_entries_witness :
  let l := [Existing (mkInputShape (VStr "rect") (VNum 1.25) (VNum 7.5) (VNum 3.75)
                                   (VNum 4) VUndef);
            Existing givenLine] in
  addNewShapes openMode (Some "M50,50L50,120L150,120L150,50Z") rectEdit = Ret (Some l) /\
  List.length l = 2%nat /\
  Forall (fun e : Entry => exists i : InputShape, e = Existing i) l /\
  forall (q : nat) (s : FullShape),
    nth_error [fullRect; fullLine] q = Some s ->
    Z.of_nat q <> 0%Z ->
    nth_error l q = Some (Existing (_input s)).
Proof.
  intros l.
  assert (H : addNewShapes openMode (Some "M50,50L50,120L150,120L150,50Z") rectEdit
              = Ret (Some l)) by (vm_compute; reflexivity).
  split; [exact H|].
  exact (@addNewShapes_entries float Binary64.num Binary64.host openMode
           "M50,50L50,120L150,120L150,50Z" rectEdit l H).
Defined.

Lemma addNewShapes_negative_index_witness :
  addNewShapes openMode (Some "M0,0L1,1")
               (mkDragOptions chart paper (Some true) "select") = Throw.
Proof.
  exact (@addNewShapes_negative_index float Binary64.num Binary64.host openMode
           "M0,0L1,1" (mkDragOptions chart paper (Some true) "select") true
           eq_refl eq_refl).
Defined.

Lemma reconcile_path_witness :
  let P := triangle ++ segment ++ [[mkTuple "M" [0; 0]]] in
  let first := pathRecord "M0,0L10,0L10,10.5Z" in
  let others := [pathRecord "M2,2L4,4"] in
  let path := VStr (writePaths (filter longCell P)) in
  newShapesOf openMode chart paper None "drawclosedpath" P = Ret (first :: others) /\
  writePaths (filter longCell P) = "M0,0L10,0L10,10.5ZM2,2L4,4" /\
  shape_path (afterEditOf fullPath first others) = path /\
  in_path (snd (reconcile fullPath first others)) =
    (if strictEq (full_path fullPath) path then in_path (_input fullPath) else path).
Proof.
  intros P first others path.
  assert (H : newShapesOf openMode chart paper None "drawclosedpath" P
              = Ret (first :: others)) by (vm_compute; reflexivity).
  split; [exact H|]. split; [vm_compute; reflexivity|].
  exact (@reconcile_path float Binary64.num Binary64.host openMode chart paper None
           "drawclosedpath" P fullPath first others
           ltac:(discriminate) ltac:(discriminate) ltac:(discriminate) eq_refl H).
Defined.

Lemma addNewShapes_placeholder_witness :
  writePaths noCell = "M0,0Z" /\
  addNewShapes openMode (Some (writePaths noCell)) rectDrag = Ret None.
Proof.
  split; [reflexivity|].
  exact (@addNewShapes_placeholder float Binary64.num Binary64.host openMode rectDrag
           0 0 ltac:(vm_compute; reflexivity) eq_refl eq_refl).
Defined.

Lemma moveShape_absolute_witness :
  let moved := [[mkTuple "M" [1; 2]; mkTuple "L" [1; 12]; mkTuple "L" [11; 12];
                 mkTuple "L" [11; 2]; mkTuple "Z" [1; 2]]] in
  moveShape [square] [square] 1 2 = Ret moved /\
  List.length moved = 1%nat /\
  moveShape [square] moved 5 5 = moveShape [square] [square] 5 5.
Proof.
  intros moved.
  assert (H : moveShape [square] [square] 1 2 = Ret moved) by (vm_compute; reflexivity).
  split; [exact H|].
  exact (@moveShape_absolute float Binary64.num [square] [square] moved 1 2 5 5 H).
Defined.

Lemma moveVertexController_rectangle_witness :
  let o := mkOutline [square] 0 2 in
  let o' := mkOutline [[mkTuple "M" [0; 0]; mkTuple "L" [0; 15]; mkTuple "L" [15; 15];
                        mkTuple "L" [15; 0]; mkTuple "Z" [0; 0]]] 0 2 in
  moveVertexController [square] o 5 5 = Some (Ret o') /\
  exists cell' : Cell,
    o' = mkOutline (setNth [square] 0 cell') 0 2 /\
    (cell' = square \/ pointsShapeRectangle cell' = true).
Proof.
  intros o o'.
  assert (H : moveVertexController [square] o 5 5 = Some (Ret o'))
    by (vm_compute; reflexivity).
  split; [exact H|].
  exact (@moveVertexController_rectangle float Binary64.num [square] o o' 5 5
           square square eq_refl eq_refl ltac:(repeat constructor)
           ltac:(vm_compute; reflexivity) H).
Defined.

Lemma moveVertexController_others_witness :
  let o := mkOutline [pentagon] 0 2 in
  let o' := mkOutline [[mkTuple "M" [0; 0]; mkTuple "L" [4; 0]; mkTuple "L" [6; 4];
                        mkTuple "L" [2; 5]; mkTuple "L" [-1; 3]]] 0 2 in
  moveVertexController [pentagon] o 1 1 = Some (Ret o') /\
  List.length (polygons o') = List.length (polygons o) /\
  (forall i : nat, i <> indexI o ->
     nth_error (polygons o') i = nth_error (polygons o) i) /\
  (forall cell : Cell,
     nth_error (polygons o) (indexI o) = Some cell ->
     pointsShapeRectangle cell = false ->
     exists (cell' : Cell) (c vertex vertex' : Tuple),
       nth_error (polygons o') (indexI o) = Some cell' /\
       (forall j : nat, j <> indexJ o -> nth_error cell' j = nth_error cell j) /\
       nth_error cell (indexJ o) = Some vertex /\
       nth_error cell' (indexJ o) = Some vertex' /\
       (exists copy : Cell, nth_error [pentagon] (indexI o) = Some copy /\
                            nth_error copy (indexJ o) = Some c) /\
       letter vertex' = letter vertex /\
       elem vertex' 1 = Some (toNum (elem c 1) + 1) /\
       elem vertex' 2 = Some (toNum (elem c 2) + 1)).
Proof.
  intros o o'.
  assert (H : moveVertexController [pentagon] o 1 1 = Some (Ret o'))
    by (vm_compute; reflexivity).
  split; [exact H|].
  exact (@moveVertexController_others float Binary64.num [pentagon] o o' 1 1 H).
Defined.


End Binary64Runs.
